(** * monitor_serial.py: serial monitor for the Daisy Seed

    A shallow embedding of [monitor_serial.py] and the properties of its
    port auto-detection, of its monitor loop and of its exit paths.

    Conventions of the embedding.
    - A Python [str] is the list of its Unicode code points ([list N]); a
      [bytes] object is a [list byte].
    - Everything the script asks of the outside (the arguments, what
      [comports()] enumerates, whether [serial.Serial(...)] opens, what each
      pass through the polling loop sees) is collected in a [world]; each
      of those calls either answers or raises.
    - The script's effects are threaded through a small state-and-exception
      monad [M]: the state holds the trace of prints and device calls, the
      number of enumerations made so far and the local variable [ser].
    - [while True] has no normal exit.  The world scripts finitely many
      passes; a run that survives all of them ends as [Running].
    - [print] and [ser.close()] are taken to succeed. *)

From Stdlib Require Import String Ascii DecimalString.
From Stdlib Require Import Strings.Byte.
From Stdlib Require Import List NArith ZArith Bool Lia.
Import ListNotations.

Set Implicit Arguments.

(* ================================================================== *)
(** ** Python strings *)

Definition str := list N.

(** A string literal of the source. *)
Definition lit (s : string) : str :=
  map N_of_ascii (list_ascii_of_string s).
Arguments lit s%_string.

(** The newline escape of the source literals. *)
Definition nl : str := [10%N].

(** [s * n] *)
Definition str_mul (s : str) (n : nat) : str := concat (repeat s n).

(** [format(s, "20")]: left-justified in a field of the given width. *)
Definition ljust (width : nat) (s : str) : str :=
  s ++ repeat 32%N (width - length s).

(** [str(n)] for an integer. *)
Definition str_of_int (n : Z) : str := lit (NilZero.string_of_int (Z.to_int n)).

(** [str.lower()].  The letters [A]..[Z] are mapped to [a]..[z]; every other
    code point is kept.  (Outside ASCII the interpreter follows the Unicode
    case tables, which are not part of this model.) *)
Definition lower_cp (c : N) : N :=
  if ((65 <=? c) && (c <=? 90))%N then (c + 32)%N else c.

Definition lower (s : str) : str := map lower_cp s.

(** [s.startswith(p)] *)
Fixpoint startswith (p s : str) : bool :=
  match p, s with
  | [], _ => true
  | _ :: _, [] => false
  | a :: p', b :: s' => (a =? b)%N && startswith p' s'
  end.

(** [sub in s]: substring test. *)
Fixpoint str_in (sub s : str) : bool :=
  startswith sub s ||
  match s with
  | [] => false
  | _ :: s' => str_in sub s'
  end.

(** [str.isspace()] on one code point, as the interpreter's table has it. *)
Definition is_space (c : N) : bool :=
  (((9 <=? c) && (c <=? 13)) || ((28 <=? c) && (c <=? 32)) ||
   (c =? 0x85) || (c =? 0xA0) || (c =? 0x1680) ||
   ((0x2000 <=? c) && (c <=? 0x200A)) ||
   (c =? 0x2028) || (c =? 0x2029) || (c =? 0x202F) || (c =? 0x205F) ||
   (c =? 0x3000))%N.

Fixpoint lstrip (s : str) : str :=
  match s with
  | [] => []
  | c :: s' => if is_space c then lstrip s' else s
  end.

Definition rstrip (s : str) : str := rev (lstrip (rev s)).

(** [s.strip()] *)
Definition strip (s : str) : str := rstrip (lstrip s).

(** Truth value of a string: [if line:]. *)
Definition truthy (s : str) : bool :=
  match s with [] => false | _ :: _ => true end.

(* ================================================================== *)
(** ** Exceptions *)

Inductive exn : Type :=
| SerialException (msg : str)
| KeyboardInterrupt
| UnicodeDecodeError (reason : str)
| UnboundLocalError (name : str)
| OtherError (msg : str).      (* any other subclass of Exception *)

(** [str(e)] *)
Definition exn_str (e : exn) : str :=
  match e with
  | SerialException msg => msg
  | KeyboardInterrupt => []
  | UnicodeDecodeError reason => reason
  | UnboundLocalError name =>
      lit "cannot access local variable '" ++ name ++
      lit "' where it is not associated with a value"
  | OtherError msg => msg
  end.

(** What a call into the interpreter or the operating system does. *)
Inductive outcome (A : Type) : Type :=
| Ok (a : A)
| Raise (e : exn).
Arguments Ok {A} a.
Arguments Raise {A} e.

(* ================================================================== *)
(** ** [bytes.decode('utf-8', errors=...)] *)

Inductive error_policy : Type := Strict | Ignore.

(** The codec's error callback: [strict] raises, [ignore] drops the malformed
    range and goes on with [resume]. *)
Definition on_error (errors : error_policy) (reason : string)
    (resume : outcome str) : outcome str :=
  match errors with
  | Strict => Raise (UnicodeDecodeError (lit reason))
  | Ignore => resume
  end.

Definition emit (ch : N) (rest : outcome str) : outcome str :=
  match rest with
  | Ok t => Ok (ch :: t)
  | Raise e => Raise e
  end.

Section Utf8.
Local Open Scope N_scope.

Definition is_continuation (ch : N) : bool := (0x80 <=? ch) && (ch <? 0xC0).

(** Second byte of a three-byte sequence: a continuation byte that neither
    encodes a code point below U+0800 nor a surrogate. *)
Definition second_of_3 (ch ch2 : N) : bool :=
  is_continuation ch2 &&
  negb (if ch2 <? 0xA0 then ch =? 0xE0 else ch =? 0xED).

(** Second byte of a four-byte sequence: a continuation byte that neither
    encodes a code point below U+10000 nor one above U+10FFFF. *)
Definition second_of_4 (ch ch2 : N) : bool :=
  is_continuation ch2 &&
  negb (if ch2 <? 0x90 then ch =? 0xF0 else ch =? 0xF4).

(** The decoder, one character per round.  A malformed range is one byte
    for an invalid start byte, the bytes before the offending one for an
    invalid continuation byte, and everything left for a sequence cut off
    by the end of the data. *)
Fixpoint utf8_decode (errors : error_policy) (s : list byte) : outcome str :=
  match s with
  | [] => Ok []
  | c1 :: s1 =>
    let ch := Byte.to_N c1 in
    if ch <? 0x80 then emit ch (utf8_decode errors s1)
    else if ch <? 0xC2 then
      on_error errors "invalid start byte" (utf8_decode errors s1)
    else if ch <? 0xE0 then
      match s1 with
      | [] => on_error errors "unexpected end of data" (Ok [])
      | c2 :: s2 =>
        let ch2 := Byte.to_N c2 in
        if negb (is_continuation ch2) then
          on_error errors "invalid continuation byte" (utf8_decode errors s1)
        else
          emit (N.shiftl ch 6 + ch2 - (N.shiftl 0xC0 6 + 0x80))
               (utf8_decode errors s2)
      end
    else if ch <? 0xF0 then
      match s1 with
      | [] => on_error errors "unexpected end of data" (Ok [])
      | c2 :: s2 =>
        let ch2 := Byte.to_N c2 in
        if negb (second_of_3 ch ch2) then
          on_error errors "invalid continuation byte" (utf8_decode errors s1)
        else
          match s2 with
          | [] => on_error errors "unexpected end of data" (Ok [])
          | c3 :: s3 =>
            let ch3 := Byte.to_N c3 in
            if negb (is_continuation ch3) then
              on_error errors "invalid continuation byte"
                       (utf8_decode errors s2)
            else
              emit (N.shiftl ch 12 + N.shiftl ch2 6 + ch3
                    - (N.shiftl 0xE0 12 + N.shiftl 0x80 6 + 0x80))
                   (utf8_decode errors s3)
          end
      end
    else if ch <? 0xF5 then
      match s1 with
      | [] => on_error errors "unexpected end of data" (Ok [])
      | c2 :: s2 =>
        let ch2 := Byte.to_N c2 in
        if negb (second_of_4 ch ch2) then
          on_error errors "invalid continuation byte" (utf8_decode errors s1)
        else
          match s2 with
          | [] => on_error errors "unexpected end of data" (Ok [])
          | c3 :: s3 =>
            let ch3 := Byte.to_N c3 in
            if negb (is_continuation ch3) then
              on_error errors "invalid continuation byte"
                       (utf8_decode errors s2)
            else
              match s3 with
              | [] => on_error errors "unexpected end of data" (Ok [])
              | c4 :: s4 =>
                let ch4 := Byte.to_N c4 in
                if negb (is_continuation ch4) then
                  on_error errors "invalid continuation byte"
                           (utf8_decode errors s3)
                else
                  emit (N.shiftl ch 18 + N.shiftl ch2 12 + N.shiftl ch3 6
                        + ch4
                        - (N.shiftl 0xF0 18 + N.shiftl 0x80 12
                           + N.shiftl 0x80 6 + 0x80))
                       (utf8_decode errors s4)
              end
          end
      end
    else on_error errors "invalid start byte" (utf8_decode errors s1)
  end.

End Utf8.

(** [b.decode('utf-8', errors='ignore')], the call of the monitor loop. *)
Definition decode_ignore (b : list byte) : outcome str := utf8_decode Ignore b.

(** A byte string is valid UTF-8 when the strict decoder accepts it. *)
Definition valid_utf8 (b : list byte) : bool :=
  match utf8_decode Strict b with Ok _ => true | Raise _ => false end.

(* ================================================================== *)
(** ** Port auto-detection *)

(** [serial.tools.list_ports] describes a port by these two fields. *)
Record ListPortInfo : Type := mkPort {
  device : str;
  description : str
}.

Definition BAUD_RATE : Z := 115200.

Definition daisy_keywords : list str :=
  [lit "daisy"; lit "seed"; lit "stm"; lit "usbmodem"; lit "usbserial";
   lit "SLAB"].

(** [for keyword in daisy_keywords: if ...: return port.device] *)
Fixpoint for_keyword (port : ListPortInfo) (desc_lower device_lower : str)
    (keywords : list str) : option str :=
  match keywords with
  | [] => None
  | keyword :: more =>
    if str_in keyword desc_lower || str_in keyword device_lower
    then Some (device port)
    else for_keyword port desc_lower device_lower more
  end.

(** [for port in ports: ...], falling through to [return None]. *)
Fixpoint for_port (ports : list ListPortInfo) : option str :=
  match ports with
  | [] => None
  | port :: more =>
    let desc_lower := lower (description port) in
    let device_lower := lower (device port) in
    match for_keyword port desc_lower device_lower daisy_keywords with
    | Some found => Some found
    | None => for_port more
    end
  end.

(* ================================================================== *)
(** ** The outside world *)

(** One pass through the polling loop: what [ser.in_waiting] reports, what
    [ser.readline()] hands over when it is asked, how [time.sleep] ends. *)
Record tick : Type := mkTick {
  in_waiting : outcome Z;
  readline : outcome (list byte);
  sleep : outcome unit
}.

Record world : Type := mkWorld {
  script_name : str;                                (* sys.argv[0] *)
  args : list str;                                  (* sys.argv[1:] *)
  comports : nat -> outcome (list ListPortInfo);    (* the n-th enumeration *)
  serial_Serial : str -> outcome unit;              (* opening a device *)
  reset_input_buffer : outcome unit;
  ticks : list tick
}.

Definition sys_argv (w : world) : list str := script_name w :: args w.

(* ================================================================== *)
(** ** State, trace and the monad *)

Inductive event : Type :=
| EPrint (line : str)
| EComports
| ESerial (port : str)
| EResetInputBuffer
| EInWaiting
| EReadline
| ESleep
| EClose.

Record state : Type := mkState {
  trace : list event;        (* oldest first *)
  enumerations : nat;        (* calls of comports() so far *)
  ser : option bool          (* the local [ser]: unbound, or bound with is_open *)
}.

Definition initial : state := mkState [] 0 None.

Inductive result (A : Type) : Type :=
| Returned (a : A)
| Raised (e : exn)
| Running.                   (* still inside [while True] *)
Arguments Returned {A} a.
Arguments Raised {A} e.
Arguments Running {A}.

Definition M (A : Type) : Type := state -> result A * state.

Definition ret {A} (a : A) : M A := fun st => (Returned a, st).

Definition raise {A} (e : exn) : M A := fun st => (Raised e, st).

Definition bind {A B} (m : M A) (k : A -> M B) : M B :=
  fun st =>
    match m st with
    | (Returned a, st') => k a st'
    | (Raised e, st') => (Raised e, st')
    | (Running, st') => (Running, st')
    end.

Notation "x <- m ;; k" := (bind m (fun x => k))
  (at level 61, m at next level, right associativity).
Notation "m ;; k" := (bind m (fun _ => k))
  (at level 61, right associativity).

(** [try: body  except ...: handler].  [handlers e] is the first clause that
    matches [e], if there is one; whatever the handler raises leaves the
    statement. *)
Definition try_except {A} (body : M A) (handlers : exn -> option (M A)) : M A :=
  fun st =>
    match body st with
    | (Raised e, st') =>
      match handlers e with
      | Some handler => handler st'
      | None => (Raised e, st')
      end
    | r => r
    end.

Definition log (ev : event) : M unit :=
  fun st => (Returned tt, mkState (trace st ++ [ev]) (enumerations st) (ser st)).

Definition of_outcome {A} (r : outcome A) : M A :=
  match r with
  | Ok a => ret a
  | Raise e => raise e
  end.

(** A call that leaves the script: recorded, then answered by the world. *)
Definition call {A} (ev : event) (r : outcome A) : M A :=
  log ev ;; of_outcome r.

Definition print (line : str) : M unit := log (EPrint line).

(** [serial.tools.list_ports.comports()] *)
Definition call_comports (w : world) : M (list ListPortInfo) :=
  fun st =>
    (log EComports ;; of_outcome (comports w (enumerations st)))
      (mkState (trace st) (S (enumerations st)) (ser st)).

(** [ser = serial.Serial(port=port_name, ...)]: the name is bound only when
    the constructor returns. *)
Definition open_serial (w : world) (port_name : str) : M unit :=
  call (ESerial port_name) (serial_Serial w port_name) ;;
  fun st => (Returned tt, mkState (trace st) (enumerations st) (Some true)).

(** Reading the local [ser] to get at [ser.is_open]. *)
Definition ser_is_open : M bool :=
  fun st =>
    match ser st with
    | Some o => (Returned o, st)
    | None => (Raised (UnboundLocalError (lit "ser")), st)
    end.

(** [ser.close()] *)
Definition ser_close : M unit :=
  _ <- ser_is_open ;;
  log EClose ;;
  fun st => (Returned tt, mkState (trace st) (enumerations st) (Some false)).

(** [for x in xs: body] *)
Fixpoint for_each {A} (xs : list A) (body : A -> M unit) : M unit :=
  match xs with
  | [] => ret tt
  | x :: more => body x ;; for_each more body
  end.

(* ================================================================== *)
(** ** The script *)

(** [f"  {port.device:20} - {port.description}"] *)
Definition port_row (port : ListPortInfo) : str :=
  lit "  " ++ ljust 20 (device port) ++ lit " - " ++ description port.

Definition list_available_ports (w : world) : M (list str) :=
  ports <- call_comports w ;;
  print (nl ++ lit "Available serial ports:") ;;
  print (str_mul (lit "-") 60) ;;
  for_each ports (fun port => print (port_row port)) ;;
  print (str_mul (lit "-") 60) ;;
  ret (map device ports).

Definition find_daisy_port (w : world) : M (option str) :=
  ports <- call_comports w ;;
  ret (for_port ports).

(** The body of [try: line = ... except UnicodeDecodeError: pass]. *)
Definition read_and_print (t : tick) : M unit :=
  b <- call EReadline (readline t) ;;
  s <- of_outcome (decode_ignore b) ;;
  let line := strip s in
  if truthy line then print line else ret tt.

Definition skip_invalid (e : exn) : option (M unit) :=
  match e with
  | UnicodeDecodeError _ => Some (ret tt)
  | _ => None
  end.

(** One pass through the body of [while True]. *)
Definition loop_body (t : tick) : M unit :=
  n <- call EInWaiting (in_waiting t) ;;
  (if (n >? 0)%Z then try_except (read_and_print t) skip_invalid else ret tt) ;;
  call ESleep (sleep t).

(** [while True: ...] over the passes the world scripts. *)
Fixpoint monitor_loop {A} (passes : list tick) : M A :=
  match passes with
  | [] => fun st => (Running, st)
  | t :: more => loop_body t ;; monitor_loop more
  end.

Definition on_SerialException (e : exn) : M Z :=
  print (lit "Error opening serial port: " ++ exn_str e) ;;
  print (nl ++ lit "Make sure:") ;;
  print (lit "  1. Daisy Seed is connected via USB") ;;
  print (lit "  2. Daisy Seed is NOT in bootloader/DFU mode") ;;
  print (lit "  3. No other program is using the serial port") ;;
  ret 1%Z.

Definition on_KeyboardInterrupt : M Z :=
  print (nl ++ nl ++ lit "Monitoring stopped.") ;;
  o <- ser_is_open ;;
  (if o then ser_close else ret tt) ;;
  ret 0%Z.

Definition on_Exception (e : exn) : M Z :=
  print (lit "Unexpected error: " ++ exn_str e) ;;
  ret 1%Z.

(** The three [except] clauses of [monitor_serial], in their order.
    [KeyboardInterrupt] is no [Exception]; everything else of [exn] is. *)
Definition monitor_handlers (e : exn) : option (M Z) :=
  match e with
  | SerialException _ => Some (on_SerialException e)
  | KeyboardInterrupt => Some on_KeyboardInterrupt
  | _ => Some (on_Exception e)
  end.

Definition banner (port_name : str) : M unit :=
  print (str_mul (lit "=") 60) ;;
  print (lit "Daisy Seed Serial Monitor") ;;
  print (str_mul (lit "=") 60) ;;
  print (lit "Port: " ++ port_name) ;;
  print (lit "Baud Rate: " ++ str_of_int BAUD_RATE) ;;
  print (lit "Press Ctrl+C to exit") ;;
  print (str_mul (lit "=") 60) ;;
  print [].

Definition monitor_serial (w : world) (port_name : str) : M Z :=
  try_except
    (open_serial w port_name ;;
     banner port_name ;;
     call EResetInputBuffer (reset_input_buffer w) ;;
     monitor_loop (ticks w))
    monitor_handlers.

Definition no_ports_found : M Z :=
  print (nl ++ lit "No serial ports found!") ;;
  print (nl ++ lit "Make sure:") ;;
  print (lit "  1. Daisy Seed is connected via USB") ;;
  print (lit "  2. Daisy Seed is NOT in bootloader/DFU mode") ;;
  print (lit "  3. Daisy Seed firmware is running") ;;
  ret 1%Z.

Definition specify_manually (w : world) (first_port : str) : M Z :=
  print (nl ++ lit "Please specify the port manually:") ;;
  print (lit "  python3 " ++ nth 0 (sys_argv w) [] ++ lit " <port_name>") ;;
  print (nl ++ lit "Example:") ;;
  print (lit "  python3 " ++ nth 0 (sys_argv w) [] ++ lit " " ++ first_port) ;;
  ret 1%Z.

(** [if not port]: [None] and the empty string are both false. *)
Definition not_port (port : option str) : bool :=
  match port with
  | Some p => negb (truthy p)
  | None => true
  end.

Definition main (w : world) : M Z :=
  if Nat.ltb 1 (length (sys_argv w)) then
    monitor_serial w (nth 1 (sys_argv w) [])
  else
    print (lit "Searching for Daisy Seed...") ;;
    port <- find_daisy_port w ;;
    if not_port port then
      print (lit "Could not auto-detect Daisy Seed port.") ;;
      available <- list_available_ports w ;;
      match available with
      | [] => no_ports_found
      | first_port :: _ => specify_manually w first_port
      end
    else
      let port_name := match port with Some p => p | None => [] end in
      print (lit "Found port: " ++ port_name) ;;
      monitor_serial w port_name.

(** A run of the script from a fresh interpreter. *)
Definition run (w : world) : result Z * state := main w initial.

(** What the run printed, in order. *)
Fixpoint printed (tr : list event) : list str :=
  match tr with
  | [] => []
  | EPrint line :: more => line :: printed more
  | _ :: more => printed more
  end.

(** Whether the run closed the serial connection. *)
Definition closed (tr : list event) : bool :=
  existsb (fun ev => match ev with EClose => true | _ => false end) tr.

(** Whether the run asked the operating system for its ports. *)
Definition enumerated (tr : list event) : bool :=
  existsb (fun ev => match ev with EComports => true | _ => false end) tr.

(* ================================================================== *)
(** ** Vocabulary of the specification *)

(** The condition the inner loop of [find_daisy_port] tests for a port. *)
Definition keyword_hit (port : ListPortInfo) : bool :=
  existsb (fun keyword =>
             str_in keyword (lower (description port)) ||
             str_in keyword (lower (device port)))
          daisy_keywords.

(** A port whose description or device path contains a configured keyword,
    letter case disregarded on both sides. *)
Definition contains_keyword_ci (port : ListPortInfo) : bool :=
  existsb (fun keyword =>
             str_in (lower keyword) (lower (description port)) ||
             str_in (lower keyword) (lower (device port)))
          daisy_keywords.

(** The text of a valid byte string. *)
Definition text_of (b : list byte) : str :=
  match utf8_decode Strict b with
  | Ok t => t
  | Raise _ => []
  end.

(** A byte string that does not begin in the middle of a character. *)
Definition starts_clean (s : list byte) : Prop :=
  match s with
  | [] => True
  | c :: _ => is_continuation (Byte.to_N c) = false
  end.

(** The lines by which the script reports a failure or its orderly end. *)
Definition diagnostics : list str :=
  [ lit "Error opening serial port: ";
    lit "Unexpected error: ";
    nl ++ nl ++ lit "Monitoring stopped.";
    nl ++ lit "No serial ports found!";
    nl ++ lit "Please specify the port manually:" ].

Definition reported (tr : list event) : bool :=
  existsb (fun line => existsb (fun d => startswith d line) diagnostics)
          (printed tr).

(** A pass of the loop in which nothing leaves the loop: the poll and the
    sleep answer, and the read (made only when bytes wait) answers too or
    fails with the one exception the loop swallows. *)
Definition quiet (t : tick) : bool :=
  match in_waiting t, sleep t with
  | Ok n, Ok _ =>
    if (n >? 0)%Z then
      match readline t with
      | Ok _ => true
      | Raise (UnicodeDecodeError _) => true
      | Raise _ => false
      end
    else true
  | _, _ => false
  end.

(** Port resolution in [main] goes through without a fault: either a port is
    given, or the enumerations it needs answer. *)
Definition resolves (w : world) : bool :=
  match args w with
  | _ :: _ => true
  | [] =>
    match comports w 0 with
    | Ok ports =>
      if not_port (for_port ports)
      then match comports w 1 with Ok _ => true | Raise _ => false end
      else true
    | Raise _ => false
    end
  end.

(** The port [main] hands to [monitor_serial], when it gets that far. *)
Definition resolved_port (w : world) : option str :=
  match args w with
  | port :: _ => Some port
  | [] =>
    match comports w 0 with
    | Ok ports => if not_port (for_port ports) then None else for_port ports
    | Raise _ => None
    end
  end.

(** The interrupt arrives while [serial.Serial(...)] is still opening the
    resolved port. *)
Definition open_interrupted (w : world) : bool :=
  match resolved_port w with
  | Some port =>
    match serial_Serial w port with
    | Raise KeyboardInterrupt => true
    | _ => false
    end
  | None => false
  end.

(** The keywords of [daisy_keywords] that are written in lower case. *)
Definition lowercase_keywords : list str :=
  [lit "daisy"; lit "seed"; lit "stm"; lit "usbmodem"; lit "usbserial"].

(** The events a pass of the polling loop can leave in the trace. *)
Definition pass_event (ev : event) : bool :=
  match ev with
  | EInWaiting | EReadline | ESleep | EPrint _ => true
  | _ => false
  end.

(** The lines of the banner [monitor_serial] prints once the port is open. *)
Definition banner_lines (port_name : str) : list str :=
  [ str_mul (lit "=") 60;
    lit "Daisy Seed Serial Monitor";
    str_mul (lit "=") 60;
    lit "Port: " ++ port_name;
    lit "Baud Rate: 115200";
    lit "Press Ctrl+C to exit";
    str_mul (lit "=") 60;
    [] ].

(** A string that neither begins nor ends with whitespace. *)
Definition edge_clean (s : str) : bool :=
  match s with
  | [] => true
  | c :: _ => negb (is_space c) && negb (is_space (last s c))
  end.

(** A byte string of ASCII characters only. *)
Definition ascii_only (b : list byte) : bool :=
  forallb (fun c => (Byte.to_N c <? 0x80)%N) b.

(** A Unicode scalar value: a code point that is no surrogate. *)
Definition scalar_value (c : N) : bool :=
  ((c <? 0xD800) || ((0xDFFF <? c) && (c <=? 0x10FFFF)))%N.

(** The byte with the given value (values above 255 do not occur). *)
Definition byte_of_N (n : N) : byte :=
  match Byte.of_N n with
  | Some b => b
  | None => x00
  end.

(** The UTF-8 encoding of one code point: the standard the decoder is
    measured against, written from the definition of UTF-8 (one byte below
    U+0080, two below U+0800, three below U+10000, four above), and what
    [str.encode('utf-8')] produces for a scalar value. *)
Definition utf8_encode_cp (c : N) : list byte :=
  (if c <? 0x80 then [byte_of_N c]
   else if c <? 0x800 then
     [byte_of_N (0xC0 + c / 64); byte_of_N (0x80 + c mod 64)]
   else if c <? 0x10000 then
     [byte_of_N (0xE0 + c / 64 / 64); byte_of_N (0x80 + (c / 64) mod 64);
      byte_of_N (0x80 + c mod 64)]
   else
     [byte_of_N (0xF0 + c / 64 / 64 / 64);
      byte_of_N (0x80 + (c / 64 / 64) mod 64);
      byte_of_N (0x80 + (c / 64) mod 64);
      byte_of_N (0x80 + c mod 64)])%N.

(** The UTF-8 encoding of a text. *)
Definition utf8_encode (t : str) : list byte := flat_map utf8_encode_cp t.

(** Putting decoded characters in front of what the rest decodes to. *)
Definition emit_all (t : str) (rest : outcome str) : outcome str :=
  fold_right emit rest t.

(** The exception with which [time.sleep] ends a pass, if it raises. *)
Definition sleep_fault (t : tick) : option exn :=
  match sleep t with
  | Raise e => Some e
  | Ok _ => None
  end.

(** The failure of a pass: the first of its device calls that raises,
    except that a [UnicodeDecodeError] of the read counts as no failure. *)
Definition pass_fault (t : tick) : option exn :=
  match in_waiting t with
  | Raise e => Some e
  | Ok n =>
    if (n >? 0)%Z then
      match readline t with
      | Raise (UnicodeDecodeError _) => sleep_fault t
      | Raise e => Some e
      | Ok _ => sleep_fault t
      end
    else sleep_fault t
  end.

Fixpoint loop_fault (passes : list tick) : option exn :=
  match passes with
  | [] => None
  | t :: more =>
    match pass_fault t with
    | Some e => Some e
    | None => loop_fault more
    end
  end.

(** The failure a monitoring session meets first: at the open, at the
    reset of the input buffer, or in a pass of the loop. *)
Definition first_fault (w : world) (port_name : str) : option exn :=
  match serial_Serial w port_name with
  | Raise e => Some e
  | Ok _ =>
    match reset_input_buffer w with
    | Raise e => Some e
    | Ok _ => loop_fault (ticks w)
    end
  end.

(** The exit code the specification gives each kind of failure. *)
Definition exit_code_of (e : exn) : Z :=
  match e with
  | KeyboardInterrupt => 0%Z
  | _ => 1%Z
  end.

(** The diagnostic the specification gives each kind of failure. *)
Definition diagnostic_of (e : exn) : list str :=
  match e with
  | SerialException msg =>
    [ lit "Error opening serial port: " ++ msg;
      nl ++ lit "Make sure:";
      lit "  1. Daisy Seed is connected via USB";
      lit "  2. Daisy Seed is NOT in bootloader/DFU mode";
      lit "  3. No other program is using the serial port" ]
  | KeyboardInterrupt => [ nl ++ nl ++ lit "Monitoring stopped." ]
  | UnicodeDecodeError reason => [ lit "Unexpected error: " ++ reason ]
  | UnboundLocalError name =>
    [ lit "Unexpected error: cannot access local variable '" ++ name ++
      lit "' where it is not associated with a value" ]
  | OtherError msg => [ lit "Unexpected error: " ++ msg ]
  end.

(** Releasing the connection belongs to the orderly end only. *)
Definition closing_of (e : exn) : list event :=
  match e with
  | KeyboardInterrupt => [EClose]
  | _ => []
  end.

Definition ser_after (e : exn) (s : option bool) : option bool :=
  match e with
  | KeyboardInterrupt => Some false
  | _ => s
  end.

(** What is reported when no port could be chosen: the table of the listed
    ports, then "No serial ports found!" with its checklist when the list
    is empty, the usage hint with the first listed device otherwise. *)
Definition miss_report (w : world) (listed : list ListPortInfo) : list str :=
  [ nl ++ lit "Available serial ports:"; repeat 45%N 60 ] ++
  map (fun port =>
         lit "  " ++
         (device port ++ repeat 32%N (20 - length (device port))) ++
         lit " - " ++ description port) listed ++
  [ repeat 45%N 60 ] ++
  match listed with
  | [] =>
    [ nl ++ lit "No serial ports found!";
      nl ++ lit "Make sure:";
      lit "  1. Daisy Seed is connected via USB";
      lit "  2. Daisy Seed is NOT in bootloader/DFU mode";
      lit "  3. Daisy Seed firmware is running" ]
  | first_port :: _ =>
    [ nl ++ lit "Please specify the port manually:";
      lit "  python3 " ++ script_name w ++ lit " <port_name>";
      nl ++ lit "Example:";
      lit "  python3 " ++ script_name w ++ lit " " ++ device first_port ]
  end.

(** The events an [except] clause of [monitor_serial] can leave. *)
Definition exit_event (ev : event) : bool :=
  match ev with
  | EPrint _ | EClose => true
  | _ => false
  end.

(** A line the polling loop may print: some text stripped, and not empty. *)
Definition stripped_line (line : str) : Prop :=
  line <> [] /\ exists s, line = strip s.

(* ================================================================== *)
(** ** Sample worlds *)

Definition this_script : str := lit "monitor_serial.py".

Definition no_passes : list tick := [].

(** A Silicon Labs CP210x bridge as macOS names it. *)
Definition slab_port : ListPortInfo :=
  mkPort (lit "/dev/cu.SLAB_USBtoUART")
         (lit "CP2102 USB to UART Bridge Controller").

Definition legacy_port : ListPortInfo := mkPort (lit "/dev/ttyS0") (lit "n/a").

Definition daisy_port : ListPortInfo :=
  mkPort (lit "/dev/ttyACM0") (lit "Daisy Seed Built In").

Definition world_with_ports (ports : list ListPortInfo) : world :=
  mkWorld this_script [] (fun _ => Ok ports) (fun _ => Ok tt) (Ok tt) no_passes.

(** [python3 monitor_serial.py /dev/ttyFAKE], no such device. *)
Definition world_fake_port : world :=
  mkWorld this_script [lit "/dev/ttyFAKE"] (fun _ => Ok [])
    (fun _ => Raise (SerialException
       (lit "[Errno 2] could not open port /dev/ttyFAKE")))
    (Ok tt) no_passes.

(** The board is unplugged while the monitor runs: bytes are announced, the
    read fails. *)
Definition world_unplugged : world :=
  mkWorld this_script [lit "/dev/ttyACM0"] (fun _ => Ok [daisy_port])
    (fun _ => Ok tt) (Ok tt)
    [ mkTick (Ok 0%Z) (Ok []) (Ok tt);
      mkTick (Ok 12%Z)
             (Raise (SerialException (lit "read failed: device disconnected")))
             (Ok tt) ].

(** Ctrl+C while the monitor sleeps between two polls. *)
Definition world_interrupted : world :=
  mkWorld this_script [lit "/dev/ttyACM0"] (fun _ => Ok [daisy_port])
    (fun _ => Ok tt) (Ok tt)
    [ mkTick (Ok 0%Z) (Ok []) (Raise KeyboardInterrupt) ].

(** Ctrl+C while the ports are being enumerated. *)
Definition world_interrupted_scan : world :=
  mkWorld this_script [] (fun _ => Raise KeyboardInterrupt)
    (fun _ => Ok tt) (Ok tt) no_passes.

(** Ctrl+C while the device is being opened. *)
Definition world_interrupted_open : world :=
  mkWorld this_script [lit "/dev/ttyACM0"] (fun _ => Ok [daisy_port])
    (fun _ => Raise KeyboardInterrupt) (Ok tt) no_passes.

(** The only port is unplugged between the scan of [find_daisy_port] and
    the listing. *)
Definition world_unplugged_between_scans : world :=
  mkWorld this_script []
    (fun n => match n with 0 => Ok [legacy_port] | _ => Ok [] end)
    (fun _ => Ok tt) (Ok tt) no_passes.

(** A pass that reads ["hi" 0xFF "!\r\n"]. *)
Definition tick_noisy : tick :=
  mkTick (Ok 6%Z) (Ok [x68; x69; xff; x21; x0d; x0a]) (Ok tt).

(** A pass that reads a blank line, [" \t\r\n"]. *)
Definition tick_blank : tick :=
  mkTick (Ok 4%Z) (Ok [x20; x09; x0d; x0a]) (Ok tt).

(** The board talks and nobody interferes: two passes, both quiet. *)
Definition world_chatty : world :=
  mkWorld this_script [lit "/dev/ttyACM0"] (fun _ => Ok [daisy_port])
    (fun _ => Ok tt) (Ok tt) [tick_noisy; tick_blank].

(** The same world with another script of passes. *)
Definition with_ticks (w : world) (passes : list tick) : world :=
  mkWorld (script_name w) (args w) (comports w) (serial_Serial w)
          (reset_input_buffer w) passes.

(** The poll fails in the first pass; a line would have been waiting in the
    second. *)
Definition world_fault_then_data : world :=
  mkWorld this_script [lit "/dev/ttyACM0"] (fun _ => Ok [daisy_port])
    (fun _ => Ok tt) (Ok tt)
    [ mkTick (Raise (OtherError (lit "[Errno 5] Input/output error")))
             (Ok []) (Ok tt);
      tick_noisy ].

(* ================================================================== *)
(** * Properties *)

(** ** The decoder *)

Section Utf8Facts.
Local Open Scope N_scope.

Local Arguments N.ltb : simpl never.
Local Arguments N.leb : simpl never.
Local Arguments N.eqb : simpl never.
Local Arguments N.shiftl : simpl never.
Local Arguments N.add : simpl never.
Local Arguments N.sub : simpl never.
Local Arguments Byte.to_N : simpl never.

(** Induction on byte strings that may step over several bytes at once. *)
Lemma bytes_ind_shorter (P : list byte -> Prop) :
  (forall s, (forall s', (length s' < length s)%nat -> P s') -> P s) ->
  forall s, P s.
Proof.
  intros step s.
  assert (H : forall n s, (length s < n)%nat -> P s).
  { induction n as [|n IH]; intros s0 Hlen; [lia|].
    apply step. intros s' Hs'. apply IH. lia. }
  apply (H (S (length s))). lia.
Qed.

Lemma emit_Ok ch r t : r = Ok t -> emit ch r = Ok (ch :: t).
Proof. intros ->. reflexivity. Qed.

(** The decoder on a few byte strings: the euro sign, an emoji, a stray
    [0xFF], an overlong encoding, an encoded surrogate, a sequence cut off
    by the end of the data. *)
Example decode_euro_sign :
  utf8_decode Strict [xe2; x82; xac] = Ok [0x20AC].
Proof. reflexivity. Qed.

Example decode_emoji :
  utf8_decode Strict [xf0; x9f; x98; x80] = Ok [0x1F600].
Proof. reflexivity. Qed.

Example strict_rejects_stray_byte :
  utf8_decode Strict [x68; x69; xff; x21] =
  Raise (UnicodeDecodeError (lit "invalid start byte")).
Proof. reflexivity. Qed.

Example ignore_drops_overlong :
  utf8_decode Ignore [xc0; x80; x61] = Ok [0x61].
Proof. reflexivity. Qed.

Example ignore_drops_surrogate :
  utf8_decode Ignore [x61; xed; xa0; x80; x62] = Ok [0x61; 0x62].
Proof. reflexivity. Qed.

Example ignore_drops_truncated_tail :
  utf8_decode Ignore [x61; xe2; x82] = Ok [0x61].
Proof. reflexivity. Qed.

Example ignore_resumes_at_offending_byte :
  utf8_decode Ignore [xe2; x28; xa1] = Ok [0x28].
Proof. reflexivity. Qed.

(** With [errors='ignore'] the decoder answers on every byte string. *)
Lemma utf8_decode_ignore_total (s : list byte) :
  exists t, utf8_decode Ignore s = Ok t.
Proof.
  induction s as [s IH] using bytes_ind_shorter.
  assert (Hemit : forall ch s', (length s' < length s)%nat ->
            exists t, emit ch (utf8_decode Ignore s') = Ok t).
  { intros ch s' Hs'. destruct (IH s' Hs') as [t Ht].
    exists (ch :: t). now apply emit_Ok. }
  destruct s as [|c1 s1]; [now exists []|]. simpl.
  repeat match goal with
    | |- exists t, Ok ?x = Ok t => exists x; reflexivity
    | |- exists t, emit _ _ = Ok t => apply Hemit; simpl; lia
    | |- exists t, utf8_decode Ignore _ = Ok t => apply IH; simpl; lia
    | |- context [if ?b then _ else _] => destruct b
    | |- context [match ?l with [] => _ | _ :: _ => _ end] => destruct l
    end.
Qed.

(** A byte string the strict decoder accepts is accepted under [ignore]
    too, with the same text; text appended to it is decoded after it. *)
Lemma utf8_decode_app (a : list byte) :
  forall ta, utf8_decode Strict a = Ok ta ->
  forall errors r tr, utf8_decode errors r = Ok tr ->
  utf8_decode errors (a ++ r) = Ok (ta ++ tr).
Proof.
  induction a as [a IH] using bytes_ind_shorter.
  intros ta Ha errors r tr Hr.
  destruct a as [|c1 s1]; cbn [utf8_decode app] in *.
  { injection Ha as <-. exact Hr. }
  repeat match goal with
    | H : on_error Strict _ _ = Ok _ |- _ => discriminate H
    | H : emit _ ?x = Ok _ |- _ =>
      destruct x eqn:?; cbn [emit] in H; [injection H as <- | discriminate H]
    | H : context [if ?b then _ else _] |- _ => destruct b eqn:?
    | H : context [match ?l with [] => _ | _ :: _ => _ end] |- _ =>
      destruct l; cbn [app] in *
    end;
  match goal with
  | E : utf8_decode Strict ?s' = Ok ?t |- _ =>
    rewrite (IH s' ltac:(simpl; lia) t E errors r tr Hr); reflexivity
  end.
Qed.

Lemma utf8_strict_ignore (a : list byte) (ta : str) :
  utf8_decode Strict a = Ok ta -> utf8_decode Ignore a = Ok ta.
Proof.
  intros Ha.
  pose proof (utf8_decode_app a Ha Ignore [] eq_refl) as H.
  now rewrite !app_nil_r in H.
Qed.

(** Valid text never starts in the middle of a character. *)
Lemma valid_starts_clean (s : list byte) (t : str) :
  utf8_decode Strict s = Ok t -> starts_clean s.
Proof.
  destruct s as [|c1 s1]; [easy|]. cbn [utf8_decode starts_clean].
  unfold is_continuation.
  destruct (N.ltb_spec (Byte.to_N c1) 0x80) as [Hlt|Hge].
  - intros _. destruct (N.leb_spec 0x80 (Byte.to_N c1)); [lia | reflexivity].
  - destruct (N.ltb_spec (Byte.to_N c1) 0xC2) as [Hlt2|Hge2];
      [discriminate|].
    intros _. destruct (N.ltb_spec (Byte.to_N c1) 0xC0); [lia|].
    apply andb_false_r.
Qed.

(** A byte that is not ASCII and stands in front of clean text is a
    malformed range of its own: [ignore] drops it and nothing else. *)
Lemma utf8_ignore_drops (b : byte) (r : list byte) :
  0x80 <= Byte.to_N b -> starts_clean r ->
  utf8_decode Ignore (b :: r) = utf8_decode Ignore r.
Proof.
  intros Hb Hr. cbn [utf8_decode on_error].
  destruct (N.ltb_spec (Byte.to_N b) 0x80); [lia|].
  unfold second_of_3, second_of_4.
  destruct r as [|c2 s2]; cbn [starts_clean] in Hr.
  - repeat match goal with
      | |- context [if ?c then _ else _] => destruct c
      end; reflexivity.
  - rewrite Hr. cbn [andb negb].
    repeat match goal with
      | |- (if ?c then _ else _) = _ => destruct c
      end; reflexivity.
Qed.

Lemma utf8_ascii (errors : error_policy) (b : byte) (r : list byte) :
  Byte.to_N b < 0x80 ->
  utf8_decode errors (b :: r) = emit (Byte.to_N b) (utf8_decode errors r).
Proof.
  intros Hb. cbn [utf8_decode].
  destruct (N.ltb_spec (Byte.to_N b) 0x80); [reflexivity | lia].
Qed.

Lemma valid_utf8_text (s : list byte) :
  valid_utf8 s = true -> utf8_decode Strict s = Ok (text_of s).
Proof.
  unfold valid_utf8, text_of.
  destruct (utf8_decode Strict s); [reflexivity | discriminate].
Qed.

(** One stray byte between two valid texts: both texts come out, the byte
    does not. *)
Lemma utf8_ignore_stray_byte (a c : list byte) (b : byte) :
  valid_utf8 a = true -> valid_utf8 c = true ->
  valid_utf8 (a ++ b :: c) = false ->
  utf8_decode Ignore (a ++ b :: c) = Ok (text_of a ++ text_of c).
Proof.
  intros Ha Hc Hbad.
  apply valid_utf8_text in Ha, Hc.
  apply (utf8_decode_app a Ha).
  destruct (N.ltb_spec (Byte.to_N b) 0x80) as [Hlt|Hge].
  - exfalso. unfold valid_utf8 in Hbad.
    rewrite (utf8_decode_app a Ha Strict (b :: c)
               (tr := Byte.to_N b :: text_of c)) in Hbad; [discriminate|].
    rewrite utf8_ascii by exact Hlt. now apply emit_Ok.
  - rewrite utf8_ignore_drops; [| exact Hge | exact (valid_starts_clean c Hc)].
    now apply utf8_strict_ignore.
Qed.

End Utf8Facts.

(** ** Strings and the keyword scan *)

Lemma startswith_head (c : N) (sub s : str) :
  startswith (c :: sub) s = true -> In c s.
Proof.
  destruct s as [|b s']; cbn [startswith]; [discriminate|].
  intros H. apply andb_true_iff in H as [H _].
  apply N.eqb_eq in H. now left.
Qed.

Lemma str_in_head (c : N) (sub s : str) :
  str_in (c :: sub) s = true -> In c s.
Proof.
  induction s as [|b s' IH]; cbn [str_in]; intros H;
    apply orb_true_iff in H as [H|H].
  - now apply startswith_head in H.
  - discriminate.
  - now apply startswith_head in H.
  - right. now apply IH.
Qed.

(** [lower()] leaves no capital letter behind. *)
Lemma lower_no_capital (c : N) (s : str) :
  In c (lower s) -> ~ (65 <= c <= 90)%N.
Proof.
  unfold lower. intros H. apply in_map_iff in H as [x [<- _]].
  unfold lower_cp.
  destruct (N.leb_spec 65 x); destruct (N.leb_spec x 90); cbn [andb]; lia.
Qed.

(** The keyword ['SLAB'] can never be found in a lowered string. *)
Lemma SLAB_never_found (s : str) : str_in (lit "SLAB") (lower s) = false.
Proof.
  destruct (str_in (lit "SLAB") (lower s)) eqn:E; [|reflexivity].
  change (lit "SLAB") with (83 :: lit "LAB")%N in E.
  apply str_in_head, lower_no_capital in E. lia.
Qed.

Lemma for_keyword_existsb (port : ListPortInfo) (d v : str) (kws : list str) :
  for_keyword port d v kws =
  if existsb (fun keyword => str_in keyword d || str_in keyword v) kws
  then Some (device port) else None.
Proof.
  induction kws as [|kw more IH]; cbn [for_keyword existsb]; [reflexivity|].
  destruct (str_in kw d || str_in kw v); [reflexivity | exact IH].
Qed.

(** What the two nested loops compute: the device of the first port, in
    enumeration order, that passes the test of the inner loop. *)
Lemma for_port_first_hit (ports : list ListPortInfo) :
  for_port ports = option_map device (find keyword_hit ports).
Proof.
  induction ports as [|port more IH]; cbn [for_port find]; [reflexivity|].
  rewrite for_keyword_existsb. fold (keyword_hit port).
  destruct (keyword_hit port); [reflexivity | exact IH].
Qed.

(** Whatever the code accepts contains a keyword, case disregarded. *)
Lemma keyword_hit_ci (port : ListPortInfo) :
  keyword_hit port = true -> contains_keyword_ci port = true.
Proof.
  unfold keyword_hit, contains_keyword_ci, daisy_keywords.
  cbn [existsb]. rewrite !SLAB_never_found.
  change (lower (lit "daisy")) with (lit "daisy").
  change (lower (lit "seed")) with (lit "seed").
  change (lower (lit "stm")) with (lit "stm").
  change (lower (lit "usbmodem")) with (lit "usbmodem").
  change (lower (lit "usbserial")) with (lit "usbserial").
  intros H.
  repeat (apply orb_true_iff in H as [H|H]); try discriminate H;
    rewrite H, ?orb_true_r; reflexivity.
Qed.

Lemma for_port_none (ports : list ListPortInfo) :
  existsb contains_keyword_ci ports = false -> for_port ports = None.
Proof.
  intros H. rewrite for_port_first_hit.
  destruct (find keyword_hit ports) as [port|] eqn:E; [|reflexivity].
  apply find_some in E as [Hin Hhit].
  assert (existsb contains_keyword_ci ports = true); [|congruence].
  apply existsb_exists. exists port. split; [exact Hin|].
  now apply keyword_hit_ci.
Qed.

(** C1 (the code fails the claim).  A port list whose only port carries the
    configured keyword [SLAB] in its device path: the port contains a keyword
    under case-insensitive comparison, yet [find_daisy_port] returns [None];
    with a second, matching port behind it, the second port is returned
    instead of the first.  The keyword is written in capitals and is looked
    for in lowered strings. *)
Theorem find_daisy_port_skips_SLAB_port :
  contains_keyword_ci slab_port = true /\
  fst (find_daisy_port (world_with_ports [slab_port]) initial)
    = Returned None /\
  fst (find_daisy_port (world_with_ports [slab_port; daisy_port]) initial)
    = Returned (Some (device daisy_port)).
Proof. repeat split; vm_compute; reflexivity. Qed.

(** C4.  When no enumerated port contains a configured keyword in its
    description or device path (letter case disregarded), and in particular
    when no port is enumerated at all, [find_daisy_port] returns [None]. *)
Theorem find_daisy_port_none_without_keyword
    (w : world) (st : state) (ports : list ListPortInfo) :
  comports w (enumerations st) = Ok ports ->
  existsb contains_keyword_ci ports = false ->
  fst (find_daisy_port w st) = Returned None.
Proof.
  intros Hports Hnone.
  unfold find_daisy_port, call_comports, bind, log, of_outcome, ret.
  cbn. rewrite Hports. cbn. now rewrite for_port_none.
Qed.

Lemma find_daisy_port_none_without_keyword_witness :
  fst (find_daisy_port (world_with_ports [legacy_port]) initial)
    = Returned None.
Proof.
  apply (@find_daisy_port_none_without_keyword
           (world_with_ports [legacy_port]) initial [legacy_port]);
    reflexivity.
Defined.

(** ** Traces *)

Lemma printed_app (a b : list event) :
  printed (a ++ b) = printed a ++ printed b.
Proof.
  induction a as [|ev a IH]; [reflexivity|].
  destruct ev; cbn [printed app]; now rewrite IH.
Qed.

Lemma printed_rows (rows : list str) : printed (map EPrint rows) = rows.
Proof.
  induction rows as [|r rows IH]; [reflexivity|].
  cbn [map printed]. now rewrite IH.
Qed.

Lemma enumerated_app (a b : list event) :
  enumerated (a ++ b) = enumerated a || enumerated b.
Proof. apply existsb_app. Qed.

(** The table loop prints one row per port and touches nothing else. *)
Lemma for_each_print_rows (ports : list ListPortInfo) (st : state) :
  for_each ports (fun port => print (port_row port)) st =
  (Returned tt,
   mkState (trace st ++ map (fun port => EPrint (port_row port)) ports)
           (enumerations st) (ser st)).
Proof.
  revert st. induction ports as [|port more IH]; intros st.
  - cbn [for_each map]. rewrite app_nil_r. now destruct st.
  - cbn [for_each map]. unfold bind at 1. unfold print at 1, log.
    rewrite IH. cbn [trace enumerations ser].
    now rewrite <- app_assoc.
Qed.

(** ** Port resolution in [main] *)

(** C5.  Started with one explicit port that cannot be opened, the script
    prints the connection-error diagnostic with its checklist and exits with
    code 1; it neither auto-detects nor enumerates the ports: the only call
    that leaves the script is the attempt to open the given port. *)
Theorem explicit_port_open_failure (w : world) (port msg : str) :
  args w = [port] ->
  serial_Serial w port = Raise (SerialException msg) ->
  run w =
    (Returned 1%Z,
     mkState
       [ ESerial port;
         EPrint (lit "Error opening serial port: " ++ msg);
         EPrint (nl ++ lit "Make sure:");
         EPrint (lit "  1. Daisy Seed is connected via USB");
         EPrint (lit "  2. Daisy Seed is NOT in bootloader/DFU mode");
         EPrint (lit "  3. No other program is using the serial port") ]
       0 None) /\
  enumerated (trace (snd (run w))) = false.
Proof.
  intros Hargs Hopen.
  assert (Hrun : run w =
    (Returned 1%Z,
     mkState
       [ ESerial port;
         EPrint (lit "Error opening serial port: " ++ msg);
         EPrint (nl ++ lit "Make sure:");
         EPrint (lit "  1. Daisy Seed is connected via USB");
         EPrint (lit "  2. Daisy Seed is NOT in bootloader/DFU mode");
         EPrint (lit "  3. No other program is using the serial port") ]
       0 None)).
  { unfold run, main, sys_argv. rewrite Hargs. cbn [length Nat.ltb Nat.leb nth].
    unfold monitor_serial, try_except, open_serial, call, bind at 1 2 3.
    unfold bind at 1. unfold log at 1. cbn [of_outcome].
    rewrite Hopen. reflexivity. }
  rewrite Hrun. split; reflexivity.
Qed.

Lemma explicit_port_open_failure_witness :
  fst (run world_fake_port) = Returned 1%Z /\
  enumerated (trace (snd (run world_fake_port))) = false.
Proof.
  destruct (@explicit_port_open_failure world_fake_port (lit "/dev/ttyFAKE")
              (lit "[Errno 2] could not open port /dev/ttyFAKE")
              eq_refl eq_refl) as [Hrun Henum].
  split; [now rewrite Hrun | exact Henum].
Defined.

Lemma bind_Returned {A B} (m : M A) (k : A -> M B) (st st' : state) (a : A) :
  m st = (Returned a, st') -> bind m k st = k a st'.
Proof. unfold bind. now intros ->. Qed.

Lemma bind_Raised {A B} (m : M A) (k : A -> M B) (st st' : state) (e : exn) :
  m st = (Raised e, st') -> bind m k st = (Raised e, st').
Proof. unfold bind. now intros ->. Qed.

Lemma bind_Running {A B} (m : M A) (k : A -> M B) (st st' : state) :
  m st = (Running, st') -> bind m k st = (Running, st').
Proof. unfold bind. now intros ->. Qed.

Lemma print_run (line : str) (st : state) :
  print line st =
  (Returned tt, mkState (trace st ++ [EPrint line]) (enumerations st) (ser st)).
Proof. reflexivity. Qed.

Lemma find_daisy_port_run (w : world) (st : state) (ports : list ListPortInfo) :
  comports w (enumerations st) = Ok ports ->
  find_daisy_port w st =
  (Returned (for_port ports),
   mkState (trace st ++ [EComports]) (S (enumerations st)) (ser st)).
Proof.
  intros Hports.
  unfold find_daisy_port, call_comports, bind, log, of_outcome, ret.
  cbn. now rewrite Hports.
Qed.

Lemma list_available_ports_run (w : world) (st : state)
    (ports : list ListPortInfo) :
  comports w (enumerations st) = Ok ports ->
  list_available_ports w st =
  (Returned (map device ports),
   mkState
     (trace st ++
      [EComports; EPrint (nl ++ lit "Available serial ports:");
       EPrint (str_mul (lit "-") 60)] ++
      map (fun port => EPrint (port_row port)) ports ++
      [EPrint (str_mul (lit "-") 60)])
     (S (enumerations st)) (ser st)).
Proof.
  intros Hports. unfold list_available_ports.
  erewrite bind_Returned; cycle 1.
  { unfold call_comports, bind, log, of_outcome, ret. cbn.
    rewrite Hports. reflexivity. }
  do 2 (erewrite bind_Returned; [|apply print_run]).
  erewrite bind_Returned; [|apply for_each_print_rows].
  erewrite bind_Returned; [|apply print_run].
  unfold ret. cbn [trace enumerations ser].
  repeat rewrite <- app_assoc. reflexivity.
Qed.

(** C6.  Started without an argument while the operating system enumerates
    no serial port, the script prints the "No serial ports found!" message
    followed by its checklist and exits with code 1. *)
Theorem no_ports_exit_code (w : world) :
  args w = [] ->
  (forall n, comports w n = Ok []) ->
  fst (run w) = Returned 1%Z /\
  printed (trace (snd (run w))) =
    [ lit "Searching for Daisy Seed...";
      lit "Could not auto-detect Daisy Seed port.";
      nl ++ lit "Available serial ports:";
      str_mul (lit "-") 60;
      str_mul (lit "-") 60;
      nl ++ lit "No serial ports found!";
      nl ++ lit "Make sure:";
      lit "  1. Daisy Seed is connected via USB";
      lit "  2. Daisy Seed is NOT in bootloader/DFU mode";
      lit "  3. Daisy Seed firmware is running" ].
Proof.
  intros Hargs Hports.
  unfold run, main, sys_argv. rewrite Hargs. cbn [length Nat.ltb Nat.leb].
  erewrite bind_Returned; [|apply print_run].
  erewrite bind_Returned; [|apply find_daisy_port_run, Hports].
  cbn [for_port not_port].
  erewrite bind_Returned; [|apply print_run].
  erewrite bind_Returned; [|apply list_available_ports_run, Hports].
  cbn [map]. split; reflexivity.
Qed.

Lemma no_ports_exit_code_witness :
  fst (run (world_with_ports [])) = Returned 1%Z.
Proof.
  apply (@no_ports_exit_code (world_with_ports []));
    [reflexivity | intros n; reflexivity].
Defined.

(** C7.  Started without an argument while ports exist and auto-detection
    matches none of them, the script prints the table of the enumerated
    ports (heading, a rule of sixty dashes, one row per port made of two
    spaces, the device path padded with spaces to twenty columns, [" - "]
    and the description, then the rule again), then the usage hint whose
    example names the first port of the enumeration, and exits with
    code 1. *)
Theorem auto_detect_miss_lists_ports
    (w : world) (first_port : ListPortInfo) (more : list ListPortInfo) :
  args w = [] ->
  (forall n, comports w n = Ok (first_port :: more)) ->
  for_port (first_port :: more) = None ->
  fst (run w) = Returned 1%Z /\
  printed (trace (snd (run w))) =
    [ lit "Searching for Daisy Seed...";
      lit "Could not auto-detect Daisy Seed port.";
      nl ++ lit "Available serial ports:";
      repeat 45%N 60 ] ++
    map (fun port =>
           lit "  " ++
           (device port ++ repeat 32%N (20 - length (device port))) ++
           lit " - " ++ description port)
        (first_port :: more) ++
    [ repeat 45%N 60;
      nl ++ lit "Please specify the port manually:";
      lit "  python3 " ++ script_name w ++ lit " <port_name>";
      nl ++ lit "Example:";
      lit "  python3 " ++ script_name w ++ lit " " ++ device first_port ].
Proof.
  intros Hargs Hports Hmiss.
  change (fun port : ListPortInfo =>
            lit "  " ++
            (device port ++ repeat 32%N (20 - length (device port))) ++
            lit " - " ++ description port) with port_row.
  unfold run, main, sys_argv. rewrite Hargs. cbn [length Nat.ltb Nat.leb].
  erewrite bind_Returned; [|apply print_run].
  erewrite bind_Returned; [|apply find_daisy_port_run, Hports].
  rewrite Hmiss. cbn [not_port].
  erewrite bind_Returned; [|apply print_run].
  erewrite bind_Returned; [|apply list_available_ports_run, Hports].
  cbn [map]. unfold specify_manually, sys_argv. cbn [nth].
  do 4 (erewrite bind_Returned; [|apply print_run]).
  unfold ret. cbn [fst snd trace initial].
  split; [reflexivity|].
  rewrite !printed_app. cbn [printed app].
  rewrite <- (map_map port_row EPrint), printed_rows.
  repeat rewrite <- app_assoc. reflexivity.
Qed.

Lemma auto_detect_miss_lists_ports_witness :
  fst (run (world_with_ports [legacy_port; slab_port])) = Returned 1%Z /\
  printed (trace (snd (run (world_with_ports [legacy_port; slab_port])))) =
    [ lit "Searching for Daisy Seed...";
      lit "Could not auto-detect Daisy Seed port.";
      nl ++ lit "Available serial ports:";
      lit "------------------------------------------------------------";
      lit "  /dev/ttyS0           - n/a";
      lit "  /dev/cu.SLAB_USBtoUART - CP2102 USB to UART Bridge Controller";
      lit "------------------------------------------------------------";
      nl ++ lit "Please specify the port manually:";
      lit "  python3 monitor_serial.py <port_name>";
      nl ++ lit "Example:";
      lit "  python3 monitor_serial.py /dev/ttyS0" ].
Proof.
  apply (@auto_detect_miss_lists_ports
           (world_with_ports [legacy_port; slab_port]) legacy_port [slab_port]);
    [reflexivity | intros n; reflexivity | reflexivity].
Defined.

(** ** One pass of the monitor loop *)

Lemma lstrip_blank (s : str) : forallb is_space s = true -> lstrip s = [].
Proof.
  induction s as [|c s IH]; cbn [forallb lstrip]; [reflexivity|].
  intros H. apply andb_true_iff in H as [Hc Hs]. rewrite Hc. now apply IH.
Qed.

Lemma strip_blank (s : str) : forallb is_space s = true -> strip s = [].
Proof. intros H. unfold strip. now rewrite (lstrip_blank s H). Qed.

Lemma truthy_nonempty (s : str) : truthy s = true <-> s <> [].
Proof. destruct s; cbn; split; congruence. Qed.

(** Reading a line that the port delivers never fails: the bytes are decoded
    whatever they are, and the stripped text is printed when it is not
    empty. *)
Lemma read_and_print_run (t : tick) (st : state) (b : list byte) :
  readline t = Ok b ->
  exists s,
    decode_ignore b = Ok s /\
    read_and_print t st =
    (Returned tt,
     mkState (trace st ++ EReadline ::
                (if truthy (strip s) then [EPrint (strip s)] else []))
             (enumerations st) (ser st)).
Proof.
  intros Hb. destruct (utf8_decode_ignore_total b) as [s Hs].
  exists s. split; [exact Hs|].
  unfold read_and_print, call, bind, log. rewrite Hb. cbn [of_outcome ret].
  unfold decode_ignore. rewrite Hs. cbn [of_outcome ret].
  destruct (truthy (strip s)); unfold print, log, ret;
    cbn [trace enumerations ser]; rewrite <- ?app_assoc; reflexivity.
Qed.

(** Closes the case of a pass whose events are known and print nothing. *)
Ltac close_silent_pass :=
  eexists;
  split; [ cbn [trace enumerations ser]; rewrite <- ?app_assoc; reflexivity
         | split; [now left | reflexivity] ].

(** What a pass does to the state, what it may print, and how it ends. *)
Lemma loop_body_spec (t : tick) (st : state) :
  exists evs r,
    loop_body t st =
      (r, mkState (trace st ++ evs) (enumerations st) (ser st)) /\
    (printed evs = [] \/
     exists b s, readline t = Ok b /\ decode_ignore b = Ok s /\
                 strip s <> [] /\ printed evs = [strip s]) /\
    match r with
    | Returned _ => quiet t = true
    | Raised _ => quiet t = false
    | Running => False
    end.
Proof.
  unfold loop_body, quiet, call.
  unfold bind at 1. unfold bind at 1. unfold log at 1.
  destruct (in_waiting t) as [n|e]; cbn [of_outcome ret raise].
  2:{ exists [EInWaiting]. close_silent_pass. }
  destruct (n >? 0)%Z.
  - unfold try_except. unfold bind at 1. cbn beta.
    destruct (readline t) as [b|e] eqn:Hb.
    + destruct (read_and_print_run t
                  (mkState (trace st ++ [EInWaiting]) (enumerations st) (ser st))
                  Hb) as [s [Hs ->]].
      cbn [trace enumerations ser]. unfold bind, log.
      exists (EInWaiting :: EReadline ::
              (if truthy (strip s) then [EPrint (strip s)] else []) ++ [ESleep]).
      destruct (sleep t) as [[]|e]; cbn [of_outcome ret raise];
        eexists; (split; [|split]);
        try (cbn [trace enumerations ser]; repeat rewrite <- app_assoc;
             reflexivity);
        try reflexivity;
        (destruct (truthy (strip s)) eqn:Ht; [right | now left];
         exists b, s; apply truthy_nonempty in Ht; auto).
    + unfold read_and_print, call, bind at 1. unfold bind at 1, log at 1.
      rewrite Hb. cbn [of_outcome raise].
      destruct e; cbn [skip_invalid];
        try (exists [EInWaiting; EReadline];
             destruct (sleep t) as [[]|?]; close_silent_pass).
      unfold ret, bind, log. cbn [trace enumerations ser].
      exists [EInWaiting; EReadline; ESleep].
      destruct (sleep t) as [[]|e]; close_silent_pass.
  - unfold ret, bind, log. cbn [trace enumerations ser].
    exists [EInWaiting; ESleep].
    destruct (sleep t) as [[]|e]; close_silent_pass.
Qed.

(** C9.  A line whose decoded text is nothing but whitespace is not printed
    by the pass that reads it; whatever a pass prints is the stripped text of
    the line it read, and that text is not empty. *)
Theorem blank_line_is_not_printed
    (t : tick) (st : state) (b : list byte) (s : str) :
  readline t = Ok b ->
  decode_ignore b = Ok s ->
  (forallb is_space s = true ->
   printed (trace (snd (loop_body t st))) = printed (trace st)) /\
  (forall line,
     In line (printed (trace (snd (loop_body t st)))) ->
     In line (printed (trace st)) \/ (line = strip s /\ line <> [])).
Proof.
  intros Hb Hs.
  destruct (loop_body_spec t st) as (evs & r & Hrun & Hprint & _).
  rewrite Hrun. cbn [snd trace]. rewrite printed_app.
  destruct Hprint as [Hnone | (b' & s' & Hb' & Hs' & Hne & Hline)].
  - rewrite Hnone, app_nil_r. split; [reflexivity | now left].
  - rewrite Hb in Hb'. injection Hb' as <-.
    rewrite Hs in Hs'. injection Hs' as <-.
    rewrite Hline. split.
    + intros Hblank. now rewrite (strip_blank s Hblank) in Hne.
    + intros line Hin. apply in_app_or in Hin as [Hin | [<- | []]]; auto.
Qed.

Lemma blank_line_is_not_printed_witness :
  printed (trace (snd (loop_body tick_blank initial))) = [].
Proof.
  apply (@blank_line_is_not_printed tick_blank initial
           [x20; x09; x0d; x0a] [32; 9; 13; 10]%N eq_refl eq_refl);
    reflexivity.
Defined.

(** C10.  Whatever bytes [readline()] returns, decoding them with
    [errors='ignore'] yields a string, the body of the inner [try] runs to
    its end, and the statement behaves the same whatever its [except]
    clauses are: the [UnicodeDecodeError] clause is never entered. *)
Theorem decode_error_clause_unreachable
    (waiting : outcome Z) (b : list byte) (nap : outcome unit)
    (st : state) (clauses : exn -> option (M unit)) :
  (exists s, decode_ignore b = Ok s) /\
  fst (read_and_print (mkTick waiting (Ok b) nap) st) = Returned tt /\
  try_except (read_and_print (mkTick waiting (Ok b) nap)) clauses st =
  read_and_print (mkTick waiting (Ok b) nap) st.
Proof.
  destruct (@read_and_print_run (mkTick waiting (Ok b) nap) st b eq_refl)
    as [s [Hs Hrun]].
  split; [now exists s|].
  unfold try_except. rewrite Hrun. split; reflexivity.
Qed.

(** ** The exit paths of [monitor_serial] *)

(** C2 (the code fails the claim).  The board is unplugged while the monitor
    runs and the read fails: [monitor_serial] returns 1 through its
    [SerialException] clause, the connection was never closed and [ser] is
    still open.  The [KeyboardInterrupt] clause next to it does close the
    connection. *)
Theorem read_error_leaves_port_open :
  (fst (run world_unplugged) = Returned 1%Z /\
   ser (snd (run world_unplugged)) = Some true /\
   closed (trace (snd (run world_unplugged))) = false) /\
  (fst (run world_interrupted) = Returned 0%Z /\
   ser (snd (run world_interrupted)) = Some false /\
   closed (trace (snd (run world_interrupted))) = true).
Proof. repeat split; vm_compute; reflexivity. Qed.

Lemma reported_app (a b : list event) :
  reported (a ++ b) = reported a || reported b.
Proof. unfold reported. now rewrite printed_app, existsb_app. Qed.

(** The polling loop leaves only by an exception, and only in a pass that is
    not quiet; the local [ser] is not touched. *)
Lemma monitor_loop_spec (passes : list tick) (st : state) :
  exists evs r,
    monitor_loop (A := Z) passes st =
      (r, mkState (trace st ++ evs) (enumerations st) (ser st)) /\
    match r with
    | Returned _ => False
    | Raised _ => forallb quiet passes = false
    | Running => forallb quiet passes = true
    end.
Proof.
  revert st. induction passes as [|t more IH]; intros st.
  - exists [], Running. cbn [monitor_loop]. rewrite app_nil_r.
    split; [now destruct st | reflexivity].
  - cbn [monitor_loop forallb].
    destruct (loop_body_spec t st) as (evs & r & Hrun & _ & Hquiet).
    unfold bind. rewrite Hrun. destruct r as [[]|e|]; [| |contradiction].
    + destruct (IH (mkState (trace st ++ evs) (enumerations st) (ser st)))
        as (evs' & r' & Hrun' & Hr').
      rewrite Hrun'. cbn [trace enumerations ser].
      exists (evs ++ evs'), r'. rewrite app_assoc, Hquiet.
      split; [reflexivity | exact Hr'].
    + exists evs, (Raised e). rewrite Hquiet. split; reflexivity.
Qed.

(** Each [except] clause prints its diagnostic and returns an exit code,
    provided [ser] is bound when the interrupt clause reads it. *)
Lemma monitor_handlers_return (e : exn) (st : state) :
  e <> KeyboardInterrupt \/ ser st = Some true ->
  exists clause code st',
    monitor_handlers e = Some clause /\
    clause st = (Returned code, st') /\
    (code = 0 \/ code = 1)%Z /\
    reported (trace st') = true.
Proof.
  intros Hser.
  destruct e; cbn [monitor_handlers]; eexists; eexists; eexists;
    (split; [reflexivity|]).
  2:{ destruct Hser as [Hne | Hopen]; [congruence|].
      unfold on_KeyboardInterrupt, ser_is_open, ser_close, ser_is_open,
        bind, print, log, ret.
      cbn [trace enumerations ser]. rewrite Hopen.
      split; [reflexivity | split; [now left|]].
      cbn [trace]. rewrite !reported_app.
      apply orb_true_iff. left. apply orb_true_iff. now right. }
  all: unfold on_SerialException, on_Exception, bind, print, log, ret;
    cbn [trace enumerations ser];
    (split; [reflexivity | split; [now right|]]);
    cbn [trace]; rewrite !reported_app;
    repeat (apply orb_true_iff; first [now right | left]).
Qed.

Lemma banner_run (port_name : str) (st : state) :
  exists evs,
    banner port_name st =
    (Returned tt, mkState (trace st ++ evs) (enumerations st) (ser st)).
Proof.
  eexists. unfold banner, bind, print, log.
  cbn [trace enumerations ser]. rewrite <- !app_assoc. reflexivity.
Qed.

Lemma open_serial_run (w : world) (port_name : str) (st : state) :
  open_serial w port_name st =
  match serial_Serial w port_name with
  | Ok _ =>
    (Returned tt,
     mkState (trace st ++ [ESerial port_name]) (enumerations st) (Some true))
  | Raise e =>
    (Raised e,
     mkState (trace st ++ [ESerial port_name]) (enumerations st) (ser st))
  end.
Proof.
  unfold open_serial, call, bind, log.
  destruct (serial_Serial w port_name); reflexivity.
Qed.

(** The protected block of [monitor_serial] never runs to its end.  When
    it raises, either the exception is no interrupt or the port is open. *)
Lemma monitor_block_spec (w : world) (port_name : str) (st : state) :
  serial_Serial w port_name <> Raise KeyboardInterrupt ->
  exists r st',
    (open_serial w port_name ;;
     banner port_name ;;
     call EResetInputBuffer (reset_input_buffer w) ;;
     monitor_loop (A := Z) (ticks w)) st = (r, st') /\
    match r with
    | Returned _ => False
    | Raised e => e <> KeyboardInterrupt \/ ser st' = Some true
    | Running => forallb quiet (ticks w) = true
    end.
Proof.
  intros Hopen.
  pose proof (open_serial_run w port_name st) as Hrun.
  destruct (serial_Serial w port_name) as [[]|e].
  2:{ erewrite bind_Raised by exact Hrun.
      eexists; eexists; split; [reflexivity|].
      left. intros ->. now apply Hopen. }
  erewrite bind_Returned by exact Hrun.
  destruct (banner_run port_name
              (mkState (trace st ++ [ESerial port_name]) (enumerations st)
                       (Some true))) as [evs Hbanner].
  erewrite bind_Returned by exact Hbanner.
  cbn [trace enumerations ser].
  unfold call. unfold bind at 2. unfold log at 1.
  destruct (reset_input_buffer w) as [[]|e]; cbn [of_outcome ret raise].
  2:{ unfold bind. cbn [trace enumerations ser].
      eexists; eexists; split; [reflexivity|]. now right. }
  unfold bind, ret. cbn [trace enumerations ser].
  match goal with
  | |- context [monitor_loop ?p ?s] =>
    destruct (monitor_loop_spec p s) as (evs' & r & -> & Hr)
  end.
  exists r. eexists. split; [reflexivity|].
  destruct r; [contradiction | now right | exact Hr].
Qed.

Lemma monitor_serial_spec (w : world) (port_name : str) (st : state) :
  serial_Serial w port_name <> Raise KeyboardInterrupt ->
  match monitor_serial w port_name st with
  | (Returned code, st') =>
    (code = 0 \/ code = 1)%Z /\ reported (trace st') = true
  | (Raised _, _) => False
  | (Running, _) => forallb quiet (ticks w) = true
  end.
Proof.
  intros Hopen.
  destruct (@monitor_block_spec w port_name st Hopen) as (r & st' & Hblock & Hr).
  unfold monitor_serial, try_except. rewrite Hblock.
  destruct r as [code|e|]; [contradiction | | exact Hr].
  destruct (@monitor_handlers_return e st' Hr)
    as (clause & code & st'' & -> & -> & Hcode & Hrep).
  now split.
Qed.

(** Faults of the enumeration reach the caller of [main]. *)
Lemma enumeration_fault_escapes (w : world) (e : exn) :
  args w = [] -> comports w 0 = Raise e -> fst (run w) = Raised e.
Proof.
  intros Hargs Hscan.
  unfold run, main, sys_argv. rewrite Hargs. cbn [length Nat.ltb Nat.leb].
  erewrite bind_Returned; [|apply print_run].
  unfold find_daisy_port, call_comports, bind, log. cbn.
  now rewrite Hscan.
Qed.

Lemma not_interrupted (r : outcome unit) :
  match r with Raise KeyboardInterrupt => true | _ => false end = false ->
  r <> Raise KeyboardInterrupt.
Proof. intros H ->. discriminate H. Qed.

(** C3 (as stated) fails: an interrupt that arrives while [main] enumerates
    the ports is caught nowhere. *)
Lemma interrupt_during_enumeration_escapes :
  fst (run world_interrupted_scan) = Raised KeyboardInterrupt /\
  ~ (forall w, match fst (run w) with Raised _ => False | _ => True end).
Proof.
  split; [reflexivity|].
  intros H. exact (H world_interrupted_scan).
Qed.

(** An interrupt that arrives while the port is being opened enters the
    interrupt clause with [ser] unbound; reading [ser.is_open] raises, and
    that exception leaves the script. *)
Lemma interrupt_during_open_escapes :
  fst (run world_interrupted_open) = Raised (UnboundLocalError (lit "ser")).
Proof. reflexivity. Qed.

(* ================================================================== *)
(** * Further properties *)

(** ** Substring search and the keyword test *)

Lemma startswith_spec (p s : str) :
  startswith p s = true <-> exists post, s = p ++ post.
Proof.
  revert s. induction p as [|a p IH]; intros s; cbn [startswith].
  - split; [intros _; now exists s | reflexivity].
  - destruct s as [|b s]; [split; [discriminate | intros [post H]; discriminate H]|].
    rewrite andb_true_iff, N.eqb_eq, IH. split.
    + intros [-> [post ->]]. now exists post.
    + intros [post H]. injection H as -> ->. split; [reflexivity | now exists post].
Qed.

(** [sub in s] holds exactly when [s] is [sub] with something around it. *)
Lemma str_in_spec (sub s : str) :
  str_in sub s = true <-> exists pre post, s = pre ++ sub ++ post.
Proof.
  induction s as [|b s IH]; cbn [str_in]; rewrite orb_true_iff, startswith_spec.
  - split.
    + intros [[post H] | H]; [|discriminate]. now exists [], post.
    + intros (pre & post & H). left.
      destruct pre; [now exists post | discriminate H].
  - rewrite IH. split.
    + intros [[post H] | (pre & post & ->)].
      * now exists [], post.
      * now exists (b :: pre), post.
    + intros (pre & post & H). destruct pre as [|c pre].
      * left. now exists post.
      * right. injection H as _ ->. now exists pre, post.
Qed.

Lemma daisy_keywords_split (kw : str) :
  In kw daisy_keywords <-> In kw lowercase_keywords \/ kw = lit "SLAB".
Proof.
  unfold daisy_keywords, lowercase_keywords. cbn [In]. intuition congruence.
Qed.

(** X1.  The test of the inner loop of [find_daisy_port] holds for a port
    exactly when its lowered description or its lowered device path can be
    cut into a prefix, one of the five lower-case keywords and a suffix.
    The sixth keyword, [SLAB], plays no part. *)
Theorem keyword_hit_iff_substring (port : ListPortInfo) :
  keyword_hit port = true <->
  exists kw pre post,
    In kw lowercase_keywords /\
    (lower (description port) = pre ++ kw ++ post \/
     lower (device port) = pre ++ kw ++ post).
Proof.
  unfold keyword_hit. rewrite existsb_exists. split.
  - intros (kw & Hin & Hhit). apply daisy_keywords_split in Hin as [Hin | ->].
    + apply orb_true_iff in Hhit as [H | H];
        apply str_in_spec in H as (pre & post & H); exists kw, pre, post; auto.
    + now rewrite !SLAB_never_found in Hhit.
  - intros (kw & pre & post & Hin & H). exists kw. split.
    + apply daisy_keywords_split. now left.
    + apply orb_true_iff.
      destruct H as [H | H]; [left | right]; apply str_in_spec; eauto.
Qed.

Lemma find_skips_misses {A} (f : A -> bool) (before : list A) (x : A)
    (after : list A) :
  existsb f before = false -> f x = true ->
  find f (before ++ x :: after) = Some x.
Proof.
  induction before as [|y before IH]; cbn [existsb find app]; intros Hb Hx.
  - now rewrite Hx.
  - apply orb_false_iff in Hb as [-> Hb]. now apply IH.
Qed.

(** X2.  [find_daisy_port] returns the device path of the first port, in
    enumeration order, that passes the keyword test: ports in front of it
    that fail the test are skipped, ports behind it are not looked at. *)
Theorem find_daisy_port_first_match
    (w : world) (st : state) (before after : list ListPortInfo)
    (port : ListPortInfo) :
  comports w (enumerations st) = Ok (before ++ port :: after) ->
  existsb keyword_hit before = false ->
  keyword_hit port = true ->
  fst (find_daisy_port w st) = Returned (Some (device port)).
Proof.
  intros Hports Hbefore Hport.
  rewrite (find_daisy_port_run w st Hports). cbn [fst].
  now rewrite for_port_first_hit,
    (@find_skips_misses _ keyword_hit before port after Hbefore Hport).
Qed.

Lemma find_daisy_port_first_match_witness :
  fst (find_daisy_port
         (world_with_ports [legacy_port; slab_port; daisy_port]) initial)
  = Returned (Some (device daisy_port)).
Proof.
  apply (@find_daisy_port_first_match
           (world_with_ports [legacy_port; slab_port; daisy_port]) initial
           [legacy_port; slab_port] [] daisy_port); reflexivity.
Defined.

(** ** The port table *)



Lemma skipn_length_app {A} (a b : list A) : skipn (length a) (a ++ b) = b.
Proof. induction a as [|x a IH]; [reflexivity | exact IH]. Qed.

Lemma firstn_length_app {A} (a b : list A) : firstn (length a) (a ++ b) = a.
Proof. induction a as [|x a IH]; [reflexivity | cbn; now rewrite IH]. Qed.

Lemma ljust_length (width : nat) (s : str) :
  length (ljust width s) = Nat.max width (length s).
Proof. unfold ljust. rewrite length_app, repeat_length. lia. Qed.

(** X4.  A row of the table is two spaces, the device path, spaces that
    fill the device path up to twenty columns, [" - "] and the description.
    So the device path is kept whole however long it is, and the
    description starts right after the separator, at column
    [5 + max 20 (len device)]. *)
Theorem port_row_columns (port : ListPortInfo) :
  port_row port =
    lit "  " ++
    (device port ++ repeat 32%N (20 - length (device port))) ++
    lit " - " ++ description port /\
  firstn (length (device port)) (skipn 2 (port_row port)) = device port /\
  skipn (5 + Nat.max 20 (length (device port))) (port_row port)
    = description port /\
  length (port_row port) =
    5 + Nat.max 20 (length (device port)) + length (description port).
Proof.
  split; [reflexivity|].
  unfold port_row. split; [|split].
  - change (skipn 2 (lit "  " ++ ?x)) with x. unfold ljust.
    rewrite <- app_assoc. apply firstn_length_app.
  - rewrite <- (ljust_length 20 (device port)).
    replace (5 + length (ljust 20 (device port)))%nat
      with (length ((lit "  " ++ ljust 20 (device port)) ++ lit " - "))
      by (rewrite !length_app; cbn; lia).
    rewrite (app_assoc (ljust 20 (device port))), app_assoc, app_assoc.
    apply skipn_length_app.
  - rewrite !length_app, ljust_length. cbn [length lit]. cbn. lia.
Qed.

(** ** [main] without an argument *)

(** X5.  [main] has no handler around the two enumerations: with no
    argument, an exception of the scan made by [find_daisy_port], or of the
    one made by [list_available_ports] after a miss, leaves [main] as it is,
    and nothing is printed after it. *)
Theorem enumeration_faults_leave_main (w : world) (e : exn) :
  args w = [] ->
  (comports w 0 = Raise e ->
   run w =
   (Raised e,
    mkState [EPrint (lit "Searching for Daisy Seed..."); EComports] 1 None)) /\
  (forall ports,
     comports w 0 = Ok ports -> not_port (for_port ports) = true ->
     comports w 1 = Raise e ->
     run w =
     (Raised e,
      mkState [ EPrint (lit "Searching for Daisy Seed..."); EComports;
                EPrint (lit "Could not auto-detect Daisy Seed port.");
                EComports ] 2 None)).
Proof.
  intros Hargs. split.
  - intros Hscan.
    unfold run, main, sys_argv. rewrite Hargs. cbn [length Nat.ltb Nat.leb].
    erewrite bind_Returned; [|apply print_run].
    unfold find_daisy_port, call_comports, bind at 1. unfold bind at 1, log.
    cbn [trace enumerations ser initial app]. now rewrite Hscan.
  - intros ports Hscan Hmiss Hscan'.
    unfold run, main, sys_argv. rewrite Hargs. cbn [length Nat.ltb Nat.leb].
    erewrite bind_Returned; [|apply print_run].
    erewrite bind_Returned; [|apply find_daisy_port_run, Hscan].
    rewrite Hmiss.
    erewrite bind_Returned; [|apply print_run].
    unfold list_available_ports, call_comports, bind at 1.
    unfold bind at 1. unfold bind at 1, log.
    cbn [trace enumerations ser initial app]. now rewrite Hscan'.
Qed.

Lemma enumeration_faults_leave_main_witness :
  run world_interrupted_scan =
  (Raised KeyboardInterrupt,
   mkState [EPrint (lit "Searching for Daisy Seed..."); EComports] 1 None).
Proof.
  apply (@enumeration_faults_leave_main world_interrupted_scan
           KeyboardInterrupt eq_refl); reflexivity.
Defined.

(** X6.  After a miss the table and the example do not come from the list
    that was scanned: the ports are enumerated a second time, and it is that
    second list which is printed, which decides between "No serial ports
    found!" and the usage hint, and whose first device is the example. *)
Theorem listing_uses_second_enumeration
    (w : world) (scanned listed : list ListPortInfo) :
  args w = [] ->
  comports w 0 = Ok scanned ->
  not_port (for_port scanned) = true ->
  comports w 1 = Ok listed ->
  fst (run w) = Returned 1%Z /\
  enumerations (snd (run w)) = 2 /\
  printed (trace (snd (run w))) =
    [ lit "Searching for Daisy Seed...";
      lit "Could not auto-detect Daisy Seed port.";
      nl ++ lit "Available serial ports:";
      str_mul (lit "-") 60 ] ++
    map port_row listed ++
    [ str_mul (lit "-") 60 ] ++
    match listed with
    | [] =>
      [ nl ++ lit "No serial ports found!";
        nl ++ lit "Make sure:";
        lit "  1. Daisy Seed is connected via USB";
        lit "  2. Daisy Seed is NOT in bootloader/DFU mode";
        lit "  3. Daisy Seed firmware is running" ]
    | first_port :: _ =>
      [ nl ++ lit "Please specify the port manually:";
        lit "  python3 " ++ script_name w ++ lit " <port_name>";
        nl ++ lit "Example:";
        lit "  python3 " ++ script_name w ++ lit " " ++ device first_port ]
    end.
Proof.
  intros Hargs Hscan Hmiss Hlist.
  unfold run, main, sys_argv. rewrite Hargs. cbn [length Nat.ltb Nat.leb].
  erewrite bind_Returned; [|apply print_run].
  erewrite bind_Returned; [|apply find_daisy_port_run, Hscan].
  rewrite Hmiss.
  erewrite bind_Returned; [|apply print_run].
  erewrite bind_Returned; [|apply list_available_ports_run, Hlist].
  destruct listed as [|first_port others]; cbn [map].
  - repeat split.
  - unfold specify_manually, sys_argv. cbn [nth].
    do 4 (erewrite bind_Returned; [|apply print_run]).
    unfold ret. cbn [fst snd trace enumerations initial].
    repeat split.
    rewrite !printed_app. cbn [printed app].
    rewrite <- (map_map port_row EPrint), printed_rows.
    repeat rewrite <- app_assoc. reflexivity.
Qed.

Lemma listing_uses_second_enumeration_witness :
  fst (run world_unplugged_between_scans) = Returned 1%Z /\
  In (nl ++ lit "No serial ports found!")
     (printed (trace (snd (run world_unplugged_between_scans)))).
Proof.
  destruct (@listing_uses_second_enumeration world_unplugged_between_scans
              [legacy_port] [] eq_refl eq_refl eq_refl eq_refl)
    as (Hcode & _ & Hprinted).
  split; [exact Hcode|]. rewrite Hprinted. cbn. tauto.
Defined.

(** ** Traces of the polling loop *)

Ltac close_pass_events :=
  eexists;
  split; [ cbn [trace enumerations ser]; rewrite <- ?app_assoc; reflexivity
         | reflexivity ].

(** A pass leaves polls, reads, prints and sleeps in the trace, nothing
    else. *)
Lemma loop_body_events (t : tick) (st : state) :
  exists evs r,
    loop_body t st =
      (r, mkState (trace st ++ evs) (enumerations st) (ser st)) /\
    forallb pass_event evs = true.
Proof.
  unfold loop_body, call.
  unfold bind at 1. unfold bind at 1. unfold log at 1.
  destruct (in_waiting t) as [n|e]; cbn [of_outcome ret raise].
  2:{ exists [EInWaiting]. close_pass_events. }
  destruct (n >? 0)%Z.
  - unfold try_except. unfold bind at 1. cbn beta.
    destruct (readline t) as [b|e] eqn:Hb.
    + destruct (read_and_print_run t
                  (mkState (trace st ++ [EInWaiting]) (enumerations st) (ser st))
                  Hb) as [s [Hs ->]].
      cbn [trace enumerations ser]. unfold bind, log.
      exists (EInWaiting :: EReadline ::
              (if truthy (strip s) then [EPrint (strip s)] else []) ++ [ESleep]).
      destruct (sleep t) as [[]|e]; cbn [of_outcome ret raise];
        eexists;
        (split; [ cbn [trace enumerations ser]; repeat rewrite <- app_assoc;
                  reflexivity
                | destruct (truthy (strip s)); reflexivity ]).
    + unfold read_and_print, call, bind at 1. unfold bind at 1, log at 1.
      rewrite Hb. cbn [of_outcome raise].
      destruct e; cbn [skip_invalid];
        try (exists [EInWaiting; EReadline]; close_pass_events).
      unfold ret, bind, log. cbn [trace enumerations ser].
      exists [EInWaiting; EReadline; ESleep].
      destruct (sleep t) as [[]|e]; close_pass_events.
  - unfold ret, bind, log. cbn [trace enumerations ser].
    exists [EInWaiting; ESleep].
    destruct (sleep t) as [[]|e]; close_pass_events.
Qed.

Lemma same_run_same_events {A} (r r' : result A) (st : state)
    (evs evs' : list event) (n n' : nat) (s s' : option bool) :
  (r, mkState (trace st ++ evs) n s) = (r', mkState (trace st ++ evs') n' s') ->
  evs = evs'.
Proof. intros H. injection H as _ H _ _. now apply app_inv_head in H. Qed.

(** The whole loop: its events are those of its passes, the lines it prints
    are stripped and not empty, and it stops exactly at the first pass that
    is not quiet. *)
Lemma monitor_loop_trace (passes : list tick) (st : state) :
  exists evs r,
    monitor_loop (A := Z) passes st =
      (r, mkState (trace st ++ evs) (enumerations st) (ser st)) /\
    forallb pass_event evs = true /\
    Forall stripped_line (printed evs) /\
    match r with
    | Returned _ => False
    | Raised _ => forallb quiet passes = false
    | Running => forallb quiet passes = true
    end.
Proof.
  revert st. induction passes as [|t more IH]; intros st.
  - exists [], Running. cbn [monitor_loop]. rewrite app_nil_r.
    repeat split; [now destruct st | constructor].
  - cbn [monitor_loop forallb].
    destruct (loop_body_spec t st) as (evs & r & Hrun & Hprint & Hquiet).
    destruct (loop_body_events t st) as (evs0 & r0 & Hrun0 & Hevs).
    rewrite Hrun in Hrun0. apply same_run_same_events in Hrun0 as <-.
    assert (Hlines : Forall stripped_line (printed evs)).
    { destruct Hprint as [-> | (b & s & _ & _ & Hne & ->)]; [constructor|].
      constructor; [|constructor]. split; [exact Hne | now exists s]. }
    unfold bind. rewrite Hrun. destruct r as [[]|e|]; [| |contradiction].
    + destruct (IH (mkState (trace st ++ evs) (enumerations st) (ser st)))
        as (evs' & r' & Hrun' & Hevs' & Hlines' & Hr').
      rewrite Hrun'. cbn [trace enumerations ser].
      exists (evs ++ evs'), r'. rewrite app_assoc, Hquiet.
      repeat split.
      * rewrite forallb_app, Hevs, Hevs'. reflexivity.
      * rewrite printed_app. now apply Forall_app.
      * exact Hr'.
    + exists evs, (Raised e). rewrite Hquiet. repeat split; assumption.
Qed.

(** ** Traces of [monitor_serial] *)

Lemma banner_trace (port_name : str) (st : state) :
  banner port_name st =
  (Returned tt,
   mkState (trace st ++ map EPrint (banner_lines port_name))
           (enumerations st) (ser st)).
Proof.
  unfold banner, bind, print, log.
  cbn [trace enumerations ser]. rewrite <- !app_assoc. reflexivity.
Qed.

(** The protected block of [monitor_serial], event by event. *)
Lemma monitor_block_trace (w : world) (port_name : str) (st : state) :
  exists evs r ser',
    (open_serial w port_name ;;
     banner port_name ;;
     call EResetInputBuffer (reset_input_buffer w) ;;
     monitor_loop (A := Z) (ticks w)) st =
      (r, mkState (trace st ++ ESerial port_name :: evs)
                  (enumerations st) ser') /\
    match serial_Serial w port_name with
    | Raise e => r = Raised e /\ evs = [] /\ ser' = ser st
    | Ok _ =>
      ser' = Some true /\
      exists rest,
        evs = map EPrint (banner_lines port_name) ++ EResetInputBuffer :: rest /\
        forallb pass_event rest = true /\
        Forall stripped_line (printed rest) /\
        match reset_input_buffer w with
        | Raise e => r = Raised e /\ rest = []
        | Ok _ =>
          match r with
          | Returned _ => False
          | Raised _ => forallb quiet (ticks w) = false
          | Running => forallb quiet (ticks w) = true
          end
        end
    end.
Proof.
  pose proof (open_serial_run w port_name st) as Hopen.
  destruct (serial_Serial w port_name) as [[]|e].
  2:{ erewrite bind_Raised by exact Hopen.
      exists [], (Raised e), (ser st). repeat split. }
  erewrite bind_Returned by exact Hopen.
  erewrite bind_Returned by apply banner_trace.
  cbn [trace enumerations ser].
  unfold call. unfold bind at 2. unfold log at 1.
  destruct (reset_input_buffer w) as [[]|e]; cbn [of_outcome ret raise].
  2:{ unfold bind. cbn [trace enumerations ser].
      eexists; exists (Raised e), (Some true). split.
      - rewrite <- !app_assoc. cbn [app]. reflexivity.
      - split; [reflexivity|]. exists []. repeat split. constructor. }
  unfold bind, ret. cbn [trace enumerations ser].
  match goal with
  | |- context [monitor_loop ?p ?s] =>
    destruct (monitor_loop_trace p s) as (rest & r & -> & Hevs & Hlines & Hr)
  end.
  cbn [trace enumerations ser].
  eexists; exists r, (Some true). split.
  - rewrite <- !app_assoc. cbn [app]. reflexivity.
  - split; [reflexivity|]. exists rest. repeat split; assumption.
Qed.

(** What each [except] clause does to the state it is entered with. *)
Lemma monitor_handlers_trace (e : exn) (st : state) :
  exists clause hevs r ser',
    monitor_handlers e = Some clause /\
    clause st =
      (r, mkState (trace st ++ hevs) (enumerations st) ser') /\
    forallb exit_event hevs = true /\
    match e, ser st with
    | KeyboardInterrupt, None =>
      r = Raised (UnboundLocalError (lit "ser")) /\ ser' = None /\
      hevs = [EPrint (nl ++ nl ++ lit "Monitoring stopped.")]
    | KeyboardInterrupt, Some true =>
      r = Returned 0%Z /\ ser' = Some false /\
      hevs = [EPrint (nl ++ nl ++ lit "Monitoring stopped."); EClose]
    | KeyboardInterrupt, Some false =>
      r = Returned 0%Z /\ ser' = Some false /\
      hevs = [EPrint (nl ++ nl ++ lit "Monitoring stopped.")]
    | _, _ => r = Returned 1%Z /\ ser' = ser st /\ closed hevs = false
    end.
Proof.
  destruct e; cbn [monitor_handlers]; eexists.
  2:{ destruct (ser st) as [[|]|] eqn:Hser; do 3 eexists;
        (split; [reflexivity|]);
        (split;
         [ unfold on_KeyboardInterrupt, ser_is_open, ser_close, ser_is_open,
             bind, print, log, ret;
           cbn [trace enumerations ser]; rewrite Hser;
           cbn [trace enumerations ser]; rewrite <- ?app_assoc; reflexivity
         | repeat split ]). }
  all: do 3 eexists; (split; [reflexivity|]);
    (split;
     [ unfold on_SerialException, on_Exception, bind, print, log, ret;
       cbn [trace enumerations ser]; rewrite <- ?app_assoc; reflexivity
     | destruct (ser st) as [[|]|]; repeat split ]).
Qed.

(** [monitor_serial] as a whole: the attempt to open the port comes first;
    when it fails, an [except] clause runs on the spot; when it succeeds,
    the banner, the reset of the input buffer and the passes of the loop
    follow, and an [except] clause ends the call unless every pass is
    quiet. *)
Lemma monitor_serial_trace (w : world) (port_name : str) (st : state) :
  exists evs r ser',
    monitor_serial w port_name st =
      (r, mkState (trace st ++ ESerial port_name :: evs)
                  (enumerations st) ser') /\
    match serial_Serial w port_name with
    | Raise e =>
      forallb exit_event evs = true /\
      match e, ser st with
      | KeyboardInterrupt, None =>
        r = Raised (UnboundLocalError (lit "ser")) /\ ser' = None /\
        evs = [EPrint (nl ++ nl ++ lit "Monitoring stopped.")]
      | KeyboardInterrupt, Some true =>
        r = Returned 0%Z /\ ser' = Some false /\
        evs = [EPrint (nl ++ nl ++ lit "Monitoring stopped."); EClose]
      | KeyboardInterrupt, Some false =>
        r = Returned 0%Z /\ ser' = Some false /\
        evs = [EPrint (nl ++ nl ++ lit "Monitoring stopped.")]
      | _, _ => r = Returned 1%Z /\ ser' = ser st /\ closed evs = false
      end
    | Ok _ =>
      exists rest hevs,
        evs = map EPrint (banner_lines port_name) ++
              EResetInputBuffer :: rest ++ hevs /\
        forallb pass_event rest = true /\
        Forall stripped_line (printed rest) /\
        forallb exit_event hevs = true /\
        ((r = Running /\ hevs = [] /\ ser' = Some true /\
          forallb quiet (ticks w) = true /\
          exists u, reset_input_buffer w = Ok u) \/
         (r = Returned 0%Z /\ ser' = Some false /\
          hevs = [EPrint (nl ++ nl ++ lit "Monitoring stopped."); EClose]) \/
         (r = Returned 1%Z /\ ser' = Some true /\ closed hevs = false)) /\
        (forall u, reset_input_buffer w = Ok u ->
                   forallb quiet (ticks w) = true -> r = Running)
    end.
Proof.
  unfold monitor_serial, try_except.
  destruct (monitor_block_trace w port_name st)
    as (bevs & br & bser & -> & Hb).
  destruct (serial_Serial w port_name) as [[]|e].
  - destruct Hb as (-> & rest & -> & Hpass & Hlines & Hreset).
    destruct br as [code|e|].
    + destruct (reset_input_buffer w); [contradiction|].
      destruct Hreset as [Hreset _]. discriminate Hreset.
    + match goal with
      | |- context [mkState ?tr ?n (Some true)] =>
        destruct (monitor_handlers_trace e (mkState tr n (Some true)))
          as (clause & hevs & r & ser' & -> & -> & Hexit & Hh)
      end.
      cbn [trace enumerations ser] in *.
      eexists; exists r, ser'. split.
      * rewrite <- app_assoc. cbn [app]. rewrite <- app_assoc. cbn [app].
        reflexivity.
      * exists rest, hevs. repeat split; try assumption.
        -- destruct e; try (right; right; tauto).
           right; left. tauto.
        -- intros u Hu Hquiet. rewrite Hu in Hreset. congruence.
    + eexists; exists Running, (Some true). split.
      * reflexivity.
      * exists rest, []. rewrite app_nil_r. repeat split; try assumption.
        -- left. destruct (reset_input_buffer w) as [u|e].
           ++ repeat split; [exact Hreset | now exists u].
           ++ destruct Hreset as [Hreset _]. discriminate Hreset.
  - destruct Hb as (-> & -> & ->).
    match goal with
    | |- context [mkState ?tr ?n (ser st)] =>
      destruct (monitor_handlers_trace e (mkState tr n (ser st)))
        as (clause & hevs & r & ser' & -> & -> & Hexit & Hh)
    end.
    cbn [trace enumerations ser] in *.
    exists hevs, r, ser'. split.
    + rewrite <- app_assoc. reflexivity.
    + split; [exact Hexit | exact Hh].
Qed.

(** ** Exit paths of [monitor_serial], in general *)

Lemma closed_app (a b : list event) : closed (a ++ b) = closed a || closed b.
Proof. apply existsb_app. Qed.

Lemma pass_events_inert (evs : list event) :
  forallb pass_event evs = true -> closed evs = false /\ enumerated evs = false.
Proof.
  induction evs as [|ev evs IH]; [now split|].
  cbn [forallb]. intros H. apply andb_true_iff in H as [Hev Hevs].
  destruct (IH Hevs) as [Hc He].
  unfold closed, enumerated in *. cbn [existsb]. rewrite Hc, He.
  destruct ev; try discriminate Hev; now split.
Qed.

Lemma exit_events_inert (evs : list event) :
  forallb exit_event evs = true -> enumerated evs = false.
Proof.
  induction evs as [|ev evs IH]; [reflexivity|].
  cbn [forallb]. intros H. apply andb_true_iff in H as [Hev Hevs].
  unfold enumerated in *. cbn [existsb]. rewrite (IH Hevs).
  destruct ev; try discriminate Hev; reflexivity.
Qed.

Lemma banner_inert (port_name : str) :
  closed (map EPrint (banner_lines port_name)) = false /\
  enumerated (map EPrint (banner_lines port_name)) = false.
Proof. now split. Qed.

Lemma closed_cons (ev : event) (evs : list event) :
  closed (ev :: evs) =
  match ev with EClose => true | _ => false end || closed evs.
Proof. reflexivity. Qed.

Lemma enumerated_cons (ev : event) (evs : list event) :
  enumerated (ev :: evs) =
  match ev with EComports => true | _ => false end || enumerated evs.
Proof. reflexivity. Qed.

(** [monitor_serial] never enumerates the ports. *)
Lemma monitor_serial_no_enumeration (w : world) (port_name : str) (st : state) :
  exists evs,
    trace (snd (monitor_serial w port_name st)) =
      trace st ++ ESerial port_name :: evs /\
    enumerated evs = false /\
    enumerations (snd (monitor_serial w port_name st)) = enumerations st.
Proof.
  destruct (monitor_serial_trace w port_name st)
    as (evs & r & ser' & -> & H).
  exists evs. cbn [snd trace enumerations]. repeat split.
  destruct (serial_Serial w port_name).
  - destruct H as (rest & hevs & -> & Hpass & _ & Hexit & _).
    rewrite enumerated_app, enumerated_cons, enumerated_app.
    rewrite (proj2 (banner_inert port_name)).
    rewrite (proj2 (pass_events_inert _ Hpass)).
    now rewrite (exit_events_inert _ Hexit).
  - now apply exit_events_inert.
Qed.

(** X7.  With a port on the command line the script goes straight to
    [monitor_serial] with that port: the first thing it does is to open it,
    it never asks the operating system for its ports, and arguments after
    the first are ignored. *)
Theorem explicit_port_skips_enumeration
    (w : world) (port : str) (others : list str) :
  args w = port :: others ->
  run w = monitor_serial w port initial /\
  (exists evs, trace (snd (run w)) = ESerial port :: evs) /\
  enumerated (trace (snd (run w))) = false /\
  enumerations (snd (run w)) = 0.
Proof.
  intros Hargs.
  assert (Hrun : run w = monitor_serial w port initial).
  { unfold run, main, sys_argv. rewrite Hargs. reflexivity. }
  rewrite Hrun.
  destruct (monitor_serial_no_enumeration w port initial)
    as (evs & Htrace & Henum & Hcount).
  rewrite Htrace, Hcount. cbn [initial trace enumerations app].
  repeat split; [now exists evs | exact Henum].
Qed.

Lemma explicit_port_skips_enumeration_witness :
  enumerated (trace (snd (run world_chatty))) = false.
Proof.
  apply (@explicit_port_skips_enumeration world_chatty
           (lit "/dev/ttyACM0") [] eq_refl).
Defined.

(** X8.  [monitor_serial] returns 0 only through its interrupt clause, and
    then the connection has been closed: "Monitoring stopped." and the call
    of [close()] are the last two events, nothing before them closed the
    port, and [ser] is no longer open. *)
Theorem exit_zero_means_closed (w : world) (port_name : str) (st : state) :
  ser st = None ->
  fst (monitor_serial w port_name st) = Returned 0%Z ->
  ser (snd (monitor_serial w port_name st)) = Some false /\
  exists evs,
    trace (snd (monitor_serial w port_name st)) =
      trace st ++ evs ++
      [EPrint (nl ++ nl ++ lit "Monitoring stopped."); EClose] /\
    closed evs = false.
Proof.
  intros Hser.
  destruct (monitor_serial_trace w port_name st)
    as (evs & r & ser' & -> & H).
  cbn [fst snd trace ser]. intros ->.
  destruct (serial_Serial w port_name) as [u|e].
  - destruct H as (rest & hevs & -> & Hpass & _ & _ & Hcases & _).
    destruct Hcases as [(Hr & _) | [(_ & -> & ->) | (Hr & _)]];
      try discriminate Hr.
    split; [reflexivity|].
    exists (ESerial port_name :: map EPrint (banner_lines port_name) ++
            EResetInputBuffer :: rest).
    split.
    + cbn [app]. now rewrite <- !app_assoc.
    + rewrite closed_cons, closed_app, closed_cons.
      rewrite (proj1 (banner_inert port_name)).
      now rewrite (proj1 (pass_events_inert _ Hpass)).
  - rewrite Hser in H. destruct H as [_ H].
    destruct e; destruct H as [Hr _]; discriminate Hr.
Qed.

Lemma exit_zero_means_closed_witness :
  ser (snd (monitor_serial world_interrupted (lit "/dev/ttyACM0") initial))
  = Some false.
Proof.
  apply (@exit_zero_means_closed world_interrupted (lit "/dev/ttyACM0")
           initial eq_refl eq_refl).
Defined.

(** X9.  Whenever [monitor_serial] returns 1 it has not closed anything:
    if the port had been opened, [ser] is still open on return. *)
Theorem exit_one_never_closes (w : world) (port_name : str) (st : state) :
  fst (monitor_serial w port_name st) = Returned 1%Z ->
  (exists evs,
     trace (snd (monitor_serial w port_name st)) = trace st ++ evs /\
     closed evs = false) /\
  ser (snd (monitor_serial w port_name st)) =
    match serial_Serial w port_name with
    | Ok _ => Some true
    | Raise _ => ser st
    end.
Proof.
  destruct (monitor_serial_trace w port_name st)
    as (evs & r & ser' & -> & H).
  cbn [fst snd trace ser]. intros ->.
  destruct (serial_Serial w port_name) as [u|e].
  - destruct H as (rest & hevs & -> & Hpass & _ & _ & Hcases & _).
    destruct Hcases as [(Hr & _) | [(Hr & _) | (_ & -> & Hclosed)]];
      try discriminate Hr.
    split; [|reflexivity]. eexists. split; [reflexivity|].
    rewrite closed_cons, closed_app, closed_cons, closed_app.
    rewrite (proj1 (banner_inert port_name)).
    now rewrite (proj1 (pass_events_inert _ Hpass)), Hclosed.
  - destruct H as [_ H].
    destruct e; destruct (ser st) as [[|]|];
      destruct H as (Hr & Hs & Hc); try discriminate Hr;
      (split; [eexists; split; [reflexivity | ] | exact Hs]);
      rewrite closed_cons; exact Hc.
Qed.

Lemma exit_one_never_closes_witness :
  ser (snd (monitor_serial world_unplugged (lit "/dev/ttyACM0") initial))
  = Some true.
Proof.
  apply (@exit_one_never_closes world_unplugged (lit "/dev/ttyACM0")
           initial eq_refl).
Defined.

(** X12.  After a successful open the banner is printed and the input
    buffer is reset before the first poll; from then on the trace holds
    only polls, reads, prints, sleeps and at most the closing of the port:
    the port is opened once and its buffer reset once. *)
Theorem reset_precedes_polling (w : world) (port_name : str) (st : state) :
  serial_Serial w port_name = Ok tt ->
  exists rest,
    trace (snd (monitor_serial w port_name st)) =
      trace st ++
      ESerial port_name :: map EPrint (banner_lines port_name) ++
      EResetInputBuffer :: rest /\
    forallb (fun ev => pass_event ev || exit_event ev) rest = true.
Proof.
  intros Hopen.
  destruct (monitor_serial_trace w port_name st)
    as (evs & r & ser' & -> & H).
  cbn [snd trace]. rewrite Hopen in H.
  destruct H as (rest & hevs & -> & Hpass & _ & Hexit & _).
  exists (rest ++ hevs). split; [reflexivity|].
  rewrite forallb_app. apply andb_true_iff. split.
  - rewrite forallb_forall in *. intros ev Hin. now rewrite (Hpass ev Hin).
  - rewrite forallb_forall in *. intros ev Hin.
    now rewrite (Hexit ev Hin), orb_true_r.
Qed.

Lemma reset_precedes_polling_witness :
  exists rest,
    trace (snd (monitor_serial world_chatty (lit "/dev/ttyACM0") initial)) =
      trace initial ++
      ESerial (lit "/dev/ttyACM0") ::
      map EPrint (banner_lines (lit "/dev/ttyACM0")) ++
      EResetInputBuffer :: rest /\
    forallb (fun ev => pass_event ev || exit_event ev) rest = true.
Proof.
  apply (@reset_precedes_polling world_chatty (lit "/dev/ttyACM0") initial
           eq_refl).
Defined.

(** ** Lines printed by the loop *)

Lemma lstrip_head (s : str) (c : N) (r : str) :
  lstrip s = c :: r -> is_space c = false.
Proof.
  induction s as [|a s IH]; cbn [lstrip]; [discriminate|].
  destruct (is_space a) eqn:Ha; [exact IH|].
  intros H. injection H as <- _. exact Ha.
Qed.

Lemma lstrip_suffix (s : str) : exists pre, s = pre ++ lstrip s.
Proof.
  induction s as [|a s [pre IH]]; cbn [lstrip]; [now exists []|].
  destruct (is_space a).
  - exists (a :: pre). cbn [app]. now rewrite <- IH.
  - now exists [].
Qed.

Lemma rstrip_prefix (s : str) : exists post, s = rstrip s ++ post.
Proof.
  unfold rstrip. destruct (lstrip_suffix (rev s)) as [pre H].
  exists (rev pre). rewrite <- rev_app_distr, <- H. now rewrite rev_involutive.
Qed.

Lemma rstrip_last (s : str) (c : N) (v : str) (d : N) :
  rstrip s = c :: v -> is_space (last (c :: v) d) = false.
Proof.
  unfold rstrip. intros H.
  destruct (lstrip (rev s)) as [|x r] eqn:E; [discriminate H|].
  rewrite <- H. cbn [rev]. rewrite last_last.
  exact (lstrip_head _ E).
Qed.

(** What [strip()] returns neither begins nor ends with whitespace. *)
Lemma strip_edge_clean (s : str) : edge_clean (strip s) = true.
Proof.
  unfold strip, edge_clean.
  destruct (rstrip (lstrip s)) as [|c v] eqn:E; [reflexivity|].
  rewrite (rstrip_last _ c E). rewrite andb_true_r.
  destruct (rstrip_prefix (lstrip s)) as [post H]. rewrite E in H.
  cbn [app] in H. now rewrite (lstrip_head _ H).
Qed.

(** X13.  Every line the polling loop prints, over all its passes, is not
    empty and neither begins nor ends with whitespace. *)
Theorem monitor_lines_are_clean
    (passes : list tick) (st : state) (line : str) :
  In line (printed (trace (snd (monitor_loop (A := Z) passes st)))) ->
  In line (printed (trace st)) \/ (line <> [] /\ edge_clean line = true).
Proof.
  destruct (monitor_loop_trace passes st) as (evs & r & -> & _ & Hlines & _).
  cbn [snd trace]. rewrite printed_app. intros Hin.
  apply in_app_or in Hin as [Hin | Hin]; [now left | right].
  rewrite Forall_forall in Hlines.
  destruct (Hlines line Hin) as [Hne [s ->]].
  split; [exact Hne | apply strip_edge_clean].
Qed.

Lemma monitor_lines_are_clean_witness :
  In (lit "hi!") (printed [])
  \/ (lit "hi!" <> [] /\ edge_clean (lit "hi!") = true).
Proof.
  apply (@monitor_lines_are_clean [tick_noisy; tick_blank] initial (lit "hi!")).
  cbn. now left.
Defined.

(** ** What the decoder hands to the loop *)

Lemma utf8_decode_ascii (errors : error_policy) (b : list byte) :
  ascii_only b = true -> utf8_decode errors b = Ok (map Byte.to_N b).
Proof.
  induction b as [|c b IH]; [reflexivity|].
  unfold ascii_only. cbn [forallb map]. intros H.
  apply andb_true_iff in H as [Hc Hb]. apply N.ltb_lt in Hc.
  rewrite (@utf8_ascii errors c b Hc). apply emit_Ok. now apply IH.
Qed.

(** X14.  A line of ASCII bytes is printed character for character, with
    the surrounding whitespace stripped, and not printed when nothing else
    is left. *)
Theorem ascii_line_printed_verbatim (t : tick) (st : state) (b : list byte) :
  readline t = Ok b ->
  ascii_only b = true ->
  read_and_print t st =
  (Returned tt,
   mkState
     (trace st ++ EReadline ::
        (if truthy (strip (map Byte.to_N b))
         then [EPrint (strip (map Byte.to_N b))] else []))
     (enumerations st) (ser st)).
Proof.
  intros Hline Hascii.
  destruct (read_and_print_run t st Hline) as [s [Hs Hrun]].
  unfold decode_ignore in Hs.
  rewrite (@utf8_decode_ascii Ignore b Hascii) in Hs. injection Hs as <-.
  exact Hrun.
Qed.

Lemma ascii_line_printed_verbatim_witness :
  printed (trace (snd (read_and_print
                        (mkTick (Ok 4%Z) (Ok [x20; x4f; x4b; x0a]) (Ok tt))
                        initial)))
  = [lit "OK"].
Proof.
  rewrite (@ascii_line_printed_verbatim
             (mkTick (Ok 4%Z) (Ok [x20; x4f; x4b; x0a]) (Ok tt)) initial
             [x20; x4f; x4b; x0a] eq_refl eq_refl).
  reflexivity.
Defined.

(** Turns the boolean tests recorded along a path of the decoder into
    arithmetic facts. *)
Ltac decoder_facts :=
  unfold second_of_3, second_of_4, is_continuation in *;
  repeat match goal with
    | H : negb _ = false |- _ => apply negb_false_iff in H
    | H : negb _ = true |- _ => apply negb_true_iff in H
    | H : (_ && _)%bool = true |- _ => apply andb_true_iff in H as [? ?]
    | H : (if ?c then _ else _) = _ |- _ => destruct c eqn:?
    | H : (_ <? _)%N = true |- _ => apply N.ltb_lt in H
    | H : (_ <? _)%N = false |- _ => apply N.ltb_ge in H
    | H : (_ <=? _)%N = true |- _ => apply N.leb_le in H
    | H : (_ =? _)%N = true |- _ => apply N.eqb_eq in H
    | H : (_ =? _)%N = false |- _ => apply N.eqb_neq in H
    end.

Ltac scalar_goal :=
  unfold scalar_value;
  rewrite ?N.shiftl_mul_pow2;
  change (2 ^ 6)%N with 64%N; change (2 ^ 12)%N with 4096%N;
  change (2 ^ 18)%N with 262144%N;
  apply orb_true_iff; rewrite andb_true_iff, !N.ltb_lt, N.leb_le; lia.

Lemma utf8_decode_scalar (errors : error_policy) (s : list byte) :
  forall t, utf8_decode errors s = Ok t -> forallb scalar_value t = true.
Proof.
  induction s as [s IH] using bytes_ind_shorter.
  intros t Ht.
  destruct s as [|c1 s1]; cbn [utf8_decode] in Ht.
  { injection Ht as <-. reflexivity. }
  repeat match goal with
    | H : on_error ?p _ _ = Ok _ |- _ =>
      destruct p; cbn [on_error] in H; [discriminate H|]
    | H : Ok [] = Ok _ |- _ => injection H as <-; reflexivity
    | H : utf8_decode _ ?s' = Ok _ |- _ =>
      exact (IH s' ltac:(simpl; lia) _ H)
    | H : emit _ ?x = Ok _ |- _ =>
      destruct x eqn:?; cbn [emit] in H; [injection H as <- | discriminate H]
    | H : context [if ?b then _ else _] |- _ => destruct b eqn:?
    | H : context [match ?l with [] => _ | _ :: _ => _ end] |- _ =>
      destruct l
    end;
  cbn [forallb];
  match goal with
  | E : utf8_decode _ ?s' = Ok ?t' |- _ =>
    rewrite (IH s' ltac:(simpl; lia) t' E), andb_true_r
  end;
  decoder_facts; scalar_goal.
Qed.

(** X15.  Whatever bytes arrive, the text decoded from them exists and holds
    Unicode scalar values only: no surrogate and nothing above U+10FFFF. *)
Theorem decoded_text_is_scalar (b : list byte) :
  match decode_ignore b with
  | Ok s => forallb scalar_value s = true
  | Raise _ => False
  end.
Proof.
  destruct (utf8_decode_ignore_total b) as [s Hs].
  unfold decode_ignore. rewrite Hs. exact (@utf8_decode_scalar Ignore b s Hs).
Qed.

(** ** [main] as a whole *)

Lemma closed_rows (ports : list ListPortInfo) :
  closed (map (fun port => EPrint (port_row port)) ports) = false.
Proof. induction ports as [|p ports IH]; [reflexivity | exact IH]. Qed.

Lemma find_daisy_port_fault (w : world) (st : state) (e : exn) :
  comports w (enumerations st) = Raise e ->
  find_daisy_port w st =
  (Raised e, mkState (trace st ++ [EComports]) (S (enumerations st)) (ser st)).
Proof.
  intros Hscan.
  unfold find_daisy_port, call_comports, bind, log, of_outcome, raise.
  cbn. now rewrite Hscan.
Qed.

Lemma list_available_ports_fault (w : world) (st : state) (e : exn) :
  comports w (enumerations st) = Raise e ->
  list_available_ports w st =
  (Raised e, mkState (trace st ++ [EComports]) (S (enumerations st)) (ser st)).
Proof.
  intros Hscan.
  unfold list_available_ports, call_comports, bind, log, of_outcome, raise.
  cbn. now rewrite Hscan.
Qed.

(** [main] either lets a fault of the enumeration through, or stops with
    code 1 before it opens anything, or hands a port to [monitor_serial]
    with [ser] unbound and nothing closed so far. *)
Lemma run_cases (w : world) :
  (exists e st, run w = (Raised e, st)) \/
  (exists st, run w = (Returned 1%Z, st) /\ closed (trace st) = false) \/
  (exists port st,
     run w = monitor_serial w port st /\
     ser st = None /\ closed (trace st) = false).
Proof.
  unfold run, main, sys_argv.
  destruct (args w) as [|port others].
  2:{ right; right. exists port, initial. repeat split. }
  cbn [length Nat.ltb Nat.leb].
  erewrite bind_Returned; [|apply print_run].
  destruct (comports w 0) as [ports|e] eqn:Hscan.
  2:{ left. erewrite bind_Raised; [|apply find_daisy_port_fault, Hscan].
      eauto. }
  erewrite bind_Returned; [|apply find_daisy_port_run, Hscan].
  destruct (not_port (for_port ports)) eqn:Hnot.
  - erewrite bind_Returned; [|apply print_run].
    destruct (comports w 1) as [listed|e] eqn:Hlist.
    2:{ left. erewrite bind_Raised; [|apply list_available_ports_fault, Hlist].
        eauto. }
    erewrite bind_Returned; [|apply list_available_ports_run, Hlist].
    right; left.
    destruct (map device listed) as [|first_port others];
      unfold no_ports_found, specify_manually, bind, print, log, ret;
      cbn [trace enumerations ser initial];
      (eexists; split; [reflexivity|]); cbn [trace];
      rewrite !closed_app, closed_rows; reflexivity.
  - right; right.
    destruct (for_port ports) as [found|]; [|discriminate Hnot].
    erewrite bind_Returned; [|apply print_run].
    eexists; eexists. split; [reflexivity|]. now split.
Qed.

(** X16.  The exit code tells what happened to the port.  A run that ends
    with an exit code ends with 0 or 1; with 0 the script has closed the
    connection it opened; with 1 it has closed nothing. *)
Theorem exit_code_tells_closing (w : world) (code : Z) :
  fst (run w) = Returned code ->
  (code = 0%Z /\ ser (snd (run w)) = Some false /\
   closed (trace (snd (run w))) = true) \/
  (code = 1%Z /\ closed (trace (snd (run w))) = false).
Proof.
  destruct (run_cases w)
    as [(e & st & ->) | [(st & -> & Hclosed) | (port & st & -> & Hser & Hclosed)]];
    cbn [fst snd].
  - discriminate.
  - intros H. injection H as <-. now right.
  - destruct (monitor_serial_trace w port st) as (evs & r & ser' & -> & H).
    cbn [fst snd trace ser]. intros ->.
    rewrite closed_app, Hclosed, closed_cons. cbn [orb].
    destruct (serial_Serial w port) as [u|e].
    + destruct H as (rest & hevs & -> & Hpass & _ & _ & Hcases & _).
      rewrite closed_app, closed_cons, closed_app.
      rewrite (proj1 (banner_inert port)), (proj1 (pass_events_inert _ Hpass)).
      cbn [orb].
      destruct Hcases as [(Hr & _) | [(Hr & -> & ->) | (Hr & _ & Hc)]];
        [discriminate Hr | |]; injection Hr as ->.
      * left. repeat split.
      * right. now split.
    + rewrite Hser in H. destruct H as [_ H].
      destruct e; destruct H as (Hr & _ & Hc); try discriminate Hr;
        injection Hr as ->; right; now split.
Qed.

Lemma exit_code_tells_closing_witness :
  (0 = 0 /\ ser (snd (run world_interrupted)) = Some false /\
   closed (trace (snd (run world_interrupted))) = true)%Z \/
  (0 = 1 /\ closed (trace (snd (run world_interrupted))) = false)%Z.
Proof.
  apply (@exit_code_tells_closing world_interrupted 0%Z eq_refl).
Defined.

(** X17.  When auto-detection succeeds, [main] announces the port it found
    and monitors exactly that port: the device of the first port of the
    enumeration that passes the keyword test.  The ports are enumerated
    once. *)
Theorem auto_detect_hands_over_first_match
    (w : world) (before after : list ListPortInfo) (port : ListPortInfo) :
  args w = [] ->
  comports w 0 = Ok (before ++ port :: after) ->
  existsb keyword_hit before = false ->
  keyword_hit port = true ->
  device port <> [] ->
  run w =
  monitor_serial w (device port)
    (mkState [ EPrint (lit "Searching for Daisy Seed..."); EComports;
               EPrint (lit "Found port: " ++ device port) ] 1 None).
Proof.
  intros Hargs Hscan Hbefore Hport Hdev.
  unfold run, main, sys_argv. rewrite Hargs. cbn [length Nat.ltb Nat.leb].
  erewrite bind_Returned; [|apply print_run].
  erewrite bind_Returned; [|apply find_daisy_port_run, Hscan].
  rewrite for_port_first_hit,
    (@find_skips_misses _ keyword_hit before port after Hbefore Hport).
  cbn [option_map not_port].
  destruct (device port) as [|c d] eqn:Hd; [contradiction|].
  cbn [truthy negb].
  erewrite bind_Returned; [|apply print_run].
  reflexivity.
Qed.

Lemma auto_detect_hands_over_first_match_witness :
  run (world_with_ports [legacy_port; daisy_port]) =
  monitor_serial (world_with_ports [legacy_port; daisy_port])
    (device daisy_port)
    (mkState [ EPrint (lit "Searching for Daisy Seed..."); EComports;
               EPrint (lit "Found port: " ++ device daisy_port) ] 1 None).
Proof.
  apply (@auto_detect_hands_over_first_match
           (world_with_ports [legacy_port; daisy_port])
           [legacy_port] [] daisy_port); try reflexivity.
  discriminate.
Defined.

(** X18.  A line that is valid UTF-8 loses nothing in [errors='ignore']:
    what is printed is the text the strict decoder reads from it, stripped. *)
Theorem valid_line_printed_as_text (t : tick) (st : state) (b : list byte) :
  readline t = Ok b ->
  valid_utf8 b = true ->
  read_and_print t st =
  (Returned tt,
   mkState
     (trace st ++ EReadline ::
        (if truthy (strip (text_of b)) then [EPrint (strip (text_of b))]
         else []))
     (enumerations st) (ser st)).
Proof.
  intros Hline Hvalid.
  destruct (read_and_print_run t st Hline) as [s [Hs Hrun]].
  unfold decode_ignore in Hs.
  rewrite (utf8_strict_ignore b (valid_utf8_text b Hvalid)) in Hs.
  injection Hs as <-. exact Hrun.
Qed.

Lemma valid_line_printed_as_text_witness :
  printed (trace (snd (read_and_print
                        (mkTick (Ok 6%Z)
                                (Ok [xc3; xa9; xe2; x82; xac; x0a]) (Ok tt))
                        initial)))
  = [[0xE9; 0x20AC]%N].
Proof.
  rewrite (@valid_line_printed_as_text
             (mkTick (Ok 6%Z) (Ok [xc3; xa9; xe2; x82; xac; x0a]) (Ok tt))
             initial [xc3; xa9; xe2; x82; xac; x0a] eq_refl eq_refl).
  reflexivity.
Defined.

(* ================================================================== *)
(** * The decoder against the encoding *)

Lemma to_N_byte_of_N (n : N) : (n < 256)%N -> Byte.to_N (byte_of_N n) = n.
Proof.
  intros Hn. unfold byte_of_N.
  destruct (Byte.of_N n) as [b|] eqn:E.
  - now apply Byte.to_of_N.
  - apply Byte.of_N_None_iff in E. lia.
Qed.

(** Boolean tests to arithmetic, in hypotheses. *)
Ltac bool_facts :=
  repeat match goal with
    | H : negb _ = false |- _ => apply negb_false_iff in H
    | H : negb _ = true |- _ => apply negb_true_iff in H
    | H : (_ && _)%bool = true |- _ => apply andb_true_iff in H as [? ?]
    | H : (_ && _)%bool = false |- _ => apply andb_false_iff in H as [?|?]
    | H : (if ?c then _ else _) = _ |- _ => destruct c eqn:?
    | H : (_ <? _)%N = true |- _ => apply N.ltb_lt in H
    | H : (_ <? _)%N = false |- _ => apply N.ltb_ge in H
    | H : (_ <=? _)%N = true |- _ => apply N.leb_le in H
    | H : (_ <=? _)%N = false |- _ => apply N.leb_gt in H
    | H : (_ =? _)%N = true |- _ => apply N.eqb_eq in H
    | H : (_ =? _)%N = false |- _ => apply N.eqb_neq in H
    end.

(** Settles the next test of the decoder by arithmetic. *)
Ltac settle_test :=
  match goal with
  | |- context [if ?b then _ else _] =>
    let E := fresh "E" in
    destruct b eqn:E; [ try (exfalso; bool_facts; lia)
                      | try (exfalso; bool_facts; lia) ]
  end.

Section Roundtrip.
Local Open Scope N_scope.

(** Decoding the encoding of a scalar value gives the value back and goes
    on with what follows, under either error policy. *)
Lemma utf8_decode_encode_cp (errors : error_policy) (c : N) (r : list byte) :
  scalar_value c = true ->
  utf8_decode errors (utf8_encode_cp c ++ r) = emit c (utf8_decode errors r).
Proof.
  unfold scalar_value, utf8_encode_cp. intros Hc.
  apply orb_true_iff in Hc.
  assert (Hrange : c < 0xD800 \/ 0xDFFF < c <= 0x10FFFF).
  { destruct Hc as [Hc|Hc]; [left; now apply N.ltb_lt|right].
    apply andb_true_iff in Hc as [H1 H2].
    apply N.ltb_lt in H1. apply N.leb_le in H2. lia. }
  clear Hc.
  pose proof (N.div_mod c 64 ltac:(lia)) as Hc1.
  pose proof (N.mod_lt c 64 ltac:(lia)) as Hr1.
  pose proof (N.div_mod (c / 64) 64 ltac:(lia)) as Hc2.
  pose proof (N.mod_lt (c / 64) 64 ltac:(lia)) as Hr2.
  pose proof (N.div_mod (c / 64 / 64) 64 ltac:(lia)) as Hc3.
  pose proof (N.mod_lt (c / 64 / 64) 64 ltac:(lia)) as Hr3.
  remember (c mod 64) as r1. remember (c / 64) as q1.
  remember (q1 mod 64) as r2. remember (q1 / 64) as q2.
  remember (q2 mod 64) as r3. remember (q2 / 64) as q3.
  destruct (N.ltb_spec c 0x80) as [H1|H1];
    [|destruct (N.ltb_spec c 0x800) as [H2|H2];
      [|destruct (N.ltb_spec c 0x10000) as [H3|H3]]];
    cbn [app utf8_decode];
    unfold second_of_3, second_of_4, is_continuation;
    rewrite ?to_N_byte_of_N by lia;
    repeat settle_test;
    f_equal; rewrite ?N.shiftl_mul_pow2;
    change (2 ^ 6) with 64; change (2 ^ 12) with 4096;
    change (2 ^ 18) with 262144; lia.
Qed.

Lemma utf8_decode_encode (errors : error_policy) (t : str) (r : list byte) :
  forallb scalar_value t = true ->
  utf8_decode errors (utf8_encode t ++ r) = emit_all t (utf8_decode errors r).
Proof.
  induction t as [|c t IH]; [reflexivity|].
  cbn [forallb utf8_encode flat_map emit_all fold_right]. intros H.
  apply andb_true_iff in H as [Hc Ht].
  rewrite <- app_assoc, (utf8_decode_encode_cp errors c _ Hc).
  f_equal. now apply IH.
Qed.

Lemma emit_all_Ok (t u : str) : emit_all t (Ok u) = Ok (t ++ u).
Proof.
  induction t as [|c t IH]; [reflexivity|].
  cbn [emit_all fold_right app]. fold (emit_all t (Ok u)). now rewrite IH.
Qed.

Lemma emit_all_Raise (t : str) (e : exn) : emit_all t (Raise e) = Raise e.
Proof.
  induction t as [|c t IH]; [reflexivity|].
  cbn [emit_all fold_right]. fold (emit_all t (Raise e)). now rewrite IH.
Qed.

(** An encoded text does not begin in the middle of a character. *)
Lemma utf8_encode_starts_clean (t : str) :
  forallb scalar_value t = true -> starts_clean (utf8_encode t).
Proof.
  destruct t as [|c t]; [easy|].
  cbn [forallb utf8_encode flat_map]. intros H.
  apply andb_true_iff in H as [Hc _].
  unfold scalar_value in Hc. apply orb_true_iff in Hc.
  unfold utf8_encode_cp.
  assert (Hrange : c <= 0x10FFFF).
  { destruct Hc as [Hc|Hc]; [apply N.ltb_lt in Hc; lia|].
    apply andb_true_iff in Hc as [_ H2]. now apply N.leb_le in H2. }
  pose proof (N.div_mod c 64 ltac:(lia)) as Hc1.
  pose proof (N.mod_lt c 64 ltac:(lia)) as Hr1.
  pose proof (N.div_mod (c / 64) 64 ltac:(lia)) as Hc2.
  pose proof (N.mod_lt (c / 64) 64 ltac:(lia)) as Hr2.
  pose proof (N.div_mod (c / 64 / 64) 64 ltac:(lia)) as Hc3.
  pose proof (N.mod_lt (c / 64 / 64) 64 ltac:(lia)) as Hr3.
  remember (c mod 64) as r1. remember (c / 64) as q1.
  remember (q1 mod 64) as r2. remember (q1 / 64) as q2.
  remember (q2 mod 64) as r3. remember (q2 / 64) as q3.
  destruct (N.ltb_spec c 0x80) as [H1|H1];
    [|destruct (N.ltb_spec c 0x800) as [H2|H2];
      [|destruct (N.ltb_spec c 0x10000) as [H3|H3]]];
    cbn [app starts_clean]; unfold is_continuation;
    rewrite to_N_byte_of_N by lia;
    apply andb_false_iff;
    [ left; apply N.leb_gt; lia | right; apply N.ltb_ge; lia ..].
Qed.

(** Under [strict] a byte that is not ASCII, in front of clean text, is an
    error. *)
Lemma utf8_strict_rejects (b : byte) (r : list byte) :
  0x80 <= Byte.to_N b -> starts_clean r ->
  exists reason, utf8_decode Strict (b :: r) = Raise (UnicodeDecodeError reason).
Proof.
  intros Hb Hr. cbn [utf8_decode on_error].
  destruct (N.ltb_spec (Byte.to_N b) 0x80); [lia|].
  unfold second_of_3, second_of_4.
  destruct r as [|c2 s2]; cbn [starts_clean] in Hr.
  - repeat match goal with
      | |- context [if ?c then _ else _] => destruct c
      end; eexists; reflexivity.
  - rewrite Hr. cbn [andb negb].
    repeat match goal with
      | |- context [if ?c then _ else _] => destruct c
      end; eexists; reflexivity.
Qed.

End Roundtrip.

(** C8.  One byte that is not ASCII between the UTF-8 encodings of two
    texts makes the line invalid (the strict decoder rejects it), and with
    [errors='ignore'] the line decodes to the two texts with that byte left
    out; the read that delivered it goes through and prints the stripped
    text.  No byte string at all makes the read fail in the decode step. *)
Theorem decode_drops_stray_byte (ta tc : str) (b : byte) :
  forallb scalar_value ta = true ->
  forallb scalar_value tc = true ->
  (0x80 <= Byte.to_N b)%N ->
  decode_ignore (utf8_encode ta ++ b :: utf8_encode tc) = Ok (ta ++ tc) /\
  (exists reason,
     utf8_decode Strict (utf8_encode ta ++ b :: utf8_encode tc) =
     Raise (UnicodeDecodeError reason)) /\
  (forall t st, readline t = Ok (utf8_encode ta ++ b :: utf8_encode tc) ->
     read_and_print t st =
     (Returned tt,
      mkState
        (trace st ++ EReadline ::
           (if truthy (strip (ta ++ tc)) then [EPrint (strip (ta ++ tc))]
            else []))
        (enumerations st) (ser st))) /\
  (forall line t st, readline t = Ok line ->
     fst (read_and_print t st) = Returned tt).
Proof.
  intros Ha Hc Hb.
  pose proof (utf8_encode_starts_clean tc Hc) as Hclean.
  assert (Hdec : decode_ignore (utf8_encode ta ++ b :: utf8_encode tc)
                 = Ok (ta ++ tc)).
  { unfold decode_ignore.
    rewrite (utf8_decode_encode Ignore ta _ Ha).
    rewrite (utf8_ignore_drops b (utf8_encode tc) Hb Hclean).
    pose proof (utf8_decode_encode Ignore tc [] Hc) as Htc.
    rewrite app_nil_r in Htc. rewrite Htc. cbn [utf8_decode].
    now rewrite !emit_all_Ok, app_nil_r. }
  split; [exact Hdec | split; [|split]].
  - destruct (utf8_strict_rejects b (utf8_encode tc) Hb Hclean)
      as [reason Hrej].
    exists reason.
    now rewrite (utf8_decode_encode Strict ta _ Ha), Hrej, emit_all_Raise.
  - intros t st Hline.
    destruct (read_and_print_run t st Hline) as [s [Hs Hrun]].
    rewrite Hdec in Hs. injection Hs as <-. exact Hrun.
  - intros line t st Hline.
    destruct (read_and_print_run t st Hline) as [s [_ Hrun]].
    now rewrite Hrun.
Qed.

Lemma decode_drops_stray_byte_witness :
  decode_ignore [xc3; xa9; x74; xc3; xa9; xff; xe2; x82; xac; x0d; x0a] =
  Ok [0xE9; 0x74; 0xE9; 0x20AC; 13; 10]%N.
Proof.
  apply (@decode_drops_stray_byte [0xE9; 0x74; 0xE9]%N [0x20AC; 13; 10]%N xff);
    [reflexivity | reflexivity | vm_compute; discriminate].
Defined.

(* ================================================================== *)
(** * Failure kinds, diagnostics and exit codes *)

(** A pass ends with its failure, or runs to its end. *)
Lemma loop_body_fault (t : tick) (st : state) :
  fst (loop_body t st) =
  match pass_fault t with
  | Some e => Raised e
  | None => Returned tt
  end.
Proof.
  unfold loop_body, pass_fault, sleep_fault, call.
  unfold bind at 1. unfold bind at 1. unfold log at 1.
  destruct (in_waiting t) as [n|e]; cbn [of_outcome ret raise];
    [|reflexivity].
  destruct (n >? 0)%Z.
  - unfold try_except. unfold bind at 1. cbn beta.
    destruct (readline t) as [b|e] eqn:Hb.
    + destruct (read_and_print_run t
                  (mkState (trace st ++ [EInWaiting]) (enumerations st) (ser st))
                  Hb) as [s [Hs ->]].
      unfold bind, log. destruct (sleep t) as [[]|e]; reflexivity.
    + unfold read_and_print, call, bind at 1. unfold bind at 1, log at 1.
      rewrite Hb. cbn [of_outcome raise].
      destruct e; cbn [skip_invalid]; try reflexivity.
      unfold ret, bind, log. destruct (sleep t) as [[]|e]; reflexivity.
  - unfold ret, bind, log. destruct (sleep t) as [[]|e]; reflexivity.
Qed.

Lemma monitor_loop_fault (passes : list tick) (st : state) :
  fst (monitor_loop (A := Z) passes st) =
  match loop_fault passes with
  | Some e => Raised e
  | None => Running
  end.
Proof.
  revert st. induction passes as [|t more IH]; intros st; [reflexivity|].
  cbn [monitor_loop loop_fault]. unfold bind.
  pose proof (loop_body_fault t st) as Hpass.
  destruct (loop_body t st) as [r st']. cbn [fst] in Hpass. subst r.
  destruct (pass_fault t); [reflexivity | apply IH].
Qed.

Lemma monitor_block_fault (w : world) (port_name : str) (st : state) :
  fst ((open_serial w port_name ;;
        banner port_name ;;
        call EResetInputBuffer (reset_input_buffer w) ;;
        monitor_loop (A := Z) (ticks w)) st) =
  match first_fault w port_name with
  | Some e => Raised e
  | None => Running
  end.
Proof.
  unfold first_fault.
  pose proof (open_serial_run w port_name st) as Hopen.
  destruct (serial_Serial w port_name) as [[]|e].
  2:{ erewrite bind_Raised by exact Hopen. reflexivity. }
  erewrite bind_Returned by exact Hopen.
  erewrite bind_Returned by apply banner_trace.
  unfold call. unfold bind at 2. unfold log at 1.
  destruct (reset_input_buffer w) as [[]|e]; cbn [of_outcome ret raise].
  2:{ reflexivity. }
  unfold bind, ret. apply monitor_loop_fault.
Qed.

(** Each [except] clause prints the diagnostic of its failure kind and
    returns its exit code; the interrupt clause closes the open port. *)
Lemma monitor_handlers_exact (e : exn) (st : state) :
  e <> KeyboardInterrupt \/ ser st = Some true ->
  exists clause,
    monitor_handlers e = Some clause /\
    clause st =
    (Returned (exit_code_of e),
     mkState (trace st ++ map EPrint (diagnostic_of e) ++ closing_of e)
             (enumerations st) (ser_after e (ser st))).
Proof.
  intros Hser.
  destruct e; cbn [monitor_handlers]; eexists; (split; [reflexivity|]).
  2:{ destruct Hser as [Hne | Hopen]; [congruence|].
      unfold on_KeyboardInterrupt, ser_is_open, ser_close, ser_is_open,
        bind, print, log, ret.
      cbn [trace enumerations ser]. rewrite Hopen.
      cbn [trace enumerations ser]. rewrite <- !app_assoc. reflexivity. }
  all: unfold on_SerialException, on_Exception, bind, print, log, ret;
    cbn [trace enumerations ser exn_str];
    rewrite <- ?app_assoc; reflexivity.
Qed.

(** A monitoring session that meets a failure ends in the clause of that
    failure. *)
Lemma monitor_serial_fault (w : world) (port_name : str) (st : state) (e : exn) :
  first_fault w port_name = Some e ->
  serial_Serial w port_name <> Raise KeyboardInterrupt ->
  exists evs,
    monitor_serial w port_name st =
    (Returned (exit_code_of e),
     mkState (trace st ++ evs ++ map EPrint (diagnostic_of e) ++ closing_of e)
             (enumerations st)
             (ser_after e match serial_Serial w port_name with
                          | Ok _ => Some true
                          | Raise _ => ser st
                          end)).
Proof.
  intros Hfault Hopen.
  unfold monitor_serial, try_except.
  destruct (monitor_block_trace w port_name st)
    as (bevs & br & bser & Hblock & Hb).
  pose proof (monitor_block_fault w port_name st) as Hf.
  rewrite Hblock in Hf |- *. cbn [fst] in Hf. rewrite Hfault in Hf. subst br.
  assert (Hser : e <> KeyboardInterrupt \/ bser = Some true /\
                 bser = match serial_Serial w port_name with
                        | Ok _ => Some true
                        | Raise _ => ser st
                        end).
  { unfold first_fault in Hfault.
    destruct (serial_Serial w port_name) as [u|e0].
    - right. destruct Hb as [-> _]. now split.
    - injection Hfault as <-. left. intros ->. now apply Hopen. }
  assert (Hbser : bser = match serial_Serial w port_name with
                         | Ok _ => Some true
                         | Raise _ => ser st
                         end).
  { destruct (serial_Serial w port_name) as [u|e0]; now destruct Hb. }
  match goal with
  | |- context [mkState ?tr ?n bser] =>
    destruct (@monitor_handlers_exact e (mkState tr n bser))
      as (clause & -> & ->)
  end.
  { cbn [ser]. destruct Hser as [Hne | [Hopen' _]]; auto. }
  cbn [trace enumerations ser]. rewrite <- Hbser.
  exists (ESerial port_name :: bevs). rewrite <- app_assoc. reflexivity.
Qed.

(** The run of [main] when no port could be chosen. *)
Lemma miss_run (w : world) (scanned listed : list ListPortInfo) :
  args w = [] ->
  comports w 0 = Ok scanned ->
  not_port (for_port scanned) = true ->
  comports w 1 = Ok listed ->
  fst (run w) = Returned 1%Z /\
  printed (trace (snd (run w))) =
    [ lit "Searching for Daisy Seed...";
      lit "Could not auto-detect Daisy Seed port." ] ++ miss_report w listed.
Proof.
  intros Hargs Hscan Hmiss Hlist. unfold miss_report.
  change (fun port : ListPortInfo =>
            lit "  " ++
            (device port ++ repeat 32%N (20 - length (device port))) ++
            lit " - " ++ description port) with port_row.
  unfold run, main, sys_argv. rewrite Hargs. cbn [length Nat.ltb Nat.leb].
  erewrite bind_Returned; [|apply print_run].
  erewrite bind_Returned; [|apply find_daisy_port_run, Hscan].
  rewrite Hmiss.
  erewrite bind_Returned; [|apply print_run].
  erewrite bind_Returned; [|apply list_available_ports_run, Hlist].
  destruct listed as [|first_port others]; cbn [map].
  - split; reflexivity.
  - unfold specify_manually, sys_argv. cbn [nth].
    do 4 (erewrite bind_Returned; [|apply print_run]).
    unfold ret. cbn [fst snd trace enumerations initial].
    split; [reflexivity|].
    rewrite !printed_app. cbn [printed app].
    rewrite <- (map_map port_row EPrint), printed_rows.
    repeat rewrite <- app_assoc. reflexivity.
Qed.

(** The run of [main] up to the call of [monitor_serial]. *)
Lemma resolved_run (w : world) (port : str) :
  resolves w = true ->
  resolved_port w = Some port ->
  exists st, run w = monitor_serial w port st /\ ser st = None.
Proof.
  unfold resolves, resolved_port, run, main, sys_argv.
  destruct (args w) as [|arg others].
  - cbn [length Nat.ltb Nat.leb].
    destruct (comports w 0) as [ports|e] eqn:Hscan; [|discriminate].
    erewrite bind_Returned; [|apply print_run].
    erewrite bind_Returned; [|apply find_daisy_port_run, Hscan].
    destruct (not_port (for_port ports)) eqn:Hnot; [discriminate|].
    intros _ Hport. rewrite Hport.
    erewrite bind_Returned; [|apply print_run].
    eexists. split; reflexivity.
  - cbn [length Nat.ltb Nat.leb nth]. intros _ Hport.
    injection Hport as <-. exists initial. split; reflexivity.
Qed.

(** C3 (as amended; the prints and [close()] of the script are taken to
    succeed).  When port resolution meets no exception of the enumeration
    and no interrupt arrives while the port is being opened, each failure
    kind is turned into its own diagnostic and exit code.  When no port can
    be chosen, [main] prints the table of the listed ports, then
    "No serial ports found!" with its checklist (no port listed) or the
    usage hint (ports listed), and exits with 1.  When a port is chosen and
    a device call fails, the failure met first decides: a [SerialException]
    ends with "Error opening serial port: ...", its checklist and code 1;
    an interrupt ends with "Monitoring stopped.", the closing of the port
    and code 0; any other [Exception] ends with "Unexpected error: ..." and
    code 1.  The diagnostic is the last thing printed. *)
Theorem failures_become_exit_codes (w : world) :
  resolves w = true ->
  open_interrupted w = false ->
  (resolved_port w = None ->
   exists listed,
     comports w 1 = Ok listed /\
     fst (run w) = Returned 1%Z /\
     printed (trace (snd (run w))) =
       [ lit "Searching for Daisy Seed...";
         lit "Could not auto-detect Daisy Seed port." ] ++
       miss_report w listed) /\
  (forall port e,
     resolved_port w = Some port ->
     first_fault w port = Some e ->
     fst (run w) = Returned (exit_code_of e) /\
     (exists before,
        printed (trace (snd (run w))) = before ++ diagnostic_of e) /\
     (exists before, trace (snd (run w)) = before ++ closing_of e)).
Proof.
  intros Hres Hopen. split.
  - unfold resolves, resolved_port in *.
    destruct (args w) as [|arg others] eqn:Hargs; [|discriminate].
    destruct (comports w 0) as [scanned|e] eqn:Hscan; [|discriminate].
    destruct (not_port (for_port scanned)) eqn:Hnot.
    + destruct (comports w 1) as [listed|e] eqn:Hlist; [|discriminate].
      intros _. exists listed. split; [reflexivity|].
      exact (miss_run w Hargs Hscan Hnot Hlist).
    + destruct (for_port scanned); [discriminate | discriminate Hnot].
  - intros port e Hport Hfault.
    destruct (resolved_run w Hres Hport) as (st & Hrun & Hser).
    unfold open_interrupted in Hopen. rewrite Hport in Hopen.
    apply not_interrupted in Hopen.
    destruct (@monitor_serial_fault w port st e Hfault Hopen) as [evs Hmon].
    rewrite Hrun, Hmon. cbn [fst snd trace].
    split; [reflexivity | split].
    + exists (printed (trace st ++ evs)).
      rewrite app_assoc, printed_app, (printed_app (map EPrint _)).
      rewrite printed_rows.
      replace (printed (closing_of e)) with (@nil str)
        by (now destruct e).
      now rewrite app_nil_r.
    + exists (trace st ++ evs ++ map EPrint (diagnostic_of e)).
      now rewrite <- !app_assoc.
Qed.

Lemma failures_become_exit_codes_witness :
  fst (run world_unplugged) = Returned 1%Z /\
  (exists before,
     printed (trace (snd (run world_unplugged))) =
     before ++
     [ lit "Error opening serial port: read failed: device disconnected";
       nl ++ lit "Make sure:";
       lit "  1. Daisy Seed is connected via USB";
       lit "  2. Daisy Seed is NOT in bootloader/DFU mode";
       lit "  3. No other program is using the serial port" ]) /\
  (exists before, trace (snd (run world_unplugged)) = before ++ []).
Proof.
  destruct (@failures_become_exit_codes world_unplugged eq_refl eq_refl)
    as [_ H].
  exact (H (lit "/dev/ttyACM0")
           (SerialException (lit "read failed: device disconnected"))
           eq_refl eq_refl).
Defined.

(* ================================================================== *)
(** * Interrupted open, and the end of monitoring *)

(** X10.  When the interrupt arrives while [serial.Serial(...)] is still
    opening the port, the interrupt clause prints "Monitoring stopped." and
    then reads the local [ser], which was never bound: an
    [UnboundLocalError] leaves [monitor_serial], no exit code is returned
    and [close()] is not called. *)
Theorem interrupted_open_raises_unbound_local
    (w : world) (port_name : str) (st : state) :
  ser st = None ->
  serial_Serial w port_name = Raise KeyboardInterrupt ->
  monitor_serial w port_name st =
  (Raised (UnboundLocalError (lit "ser")),
   mkState
     (trace st ++
      [ESerial port_name; EPrint (nl ++ nl ++ lit "Monitoring stopped.")])
     (enumerations st) None).
Proof.
  intros Hser Hopen.
  destruct (monitor_serial_trace w port_name st)
    as (evs & r & ser' & -> & H).
  rewrite Hopen, Hser in H. destruct H as (_ & -> & -> & ->). reflexivity.
Qed.

Lemma interrupted_open_raises_unbound_local_witness :
  fst (monitor_serial world_interrupted_open (lit "/dev/ttyACM0") initial)
  = Raised (UnboundLocalError (lit "ser")).
Proof.
  now rewrite (@interrupted_open_raises_unbound_local world_interrupted_open
                 (lit "/dev/ttyACM0") initial eq_refl eq_refl).
Defined.

Lemma bind_ext {A B} (m : M A) (k k' : A -> M B) (st : state) :
  (forall a st', k a st' = k' a st') -> bind m k st = bind m k' st.
Proof.
  intros Hk. unfold bind. destruct (m st) as [[a|e|] st']; [apply Hk | |];
    reflexivity.
Qed.

Lemma try_except_ext {A} (body body' : M A) (clauses : exn -> option (M A))
    (st : state) :
  body st = body' st ->
  try_except body clauses st = try_except body' clauses st.
Proof. unfold try_except. now intros ->. Qed.

(** The loop does not get past a pass that raises. *)
Lemma monitor_loop_cut (before after : list tick) (t : tick) (st : state) :
  quiet t = false ->
  monitor_loop (A := Z) (before ++ t :: after) st =
  monitor_loop (before ++ [t]) st.
Proof.
  intros Hquiet. revert st.
  induction before as [|b before IH]; intros st; cbn [app monitor_loop].
  - unfold bind.
    destruct (loop_body_spec t st) as (evs & r & -> & _ & Hr).
    destruct r as [[]|e|]; [congruence | reflexivity | contradiction].
  - apply bind_ext. intros _ st'. apply IH.
Qed.

(** X11.  A device fault ends the monitoring for good.  Once a pass raises
    out of the loop (its poll, its read or its sleep fails), no later pass
    is run: [monitor_serial] does exactly what it would do if nothing
    followed that pass, and it is no longer polling afterwards. *)
Theorem device_fault_ends_monitoring
    (w : world) (port_name : str) (st : state)
    (before after : list tick) (t : tick) :
  ticks w = before ++ t :: after ->
  quiet t = false ->
  monitor_serial w port_name st =
    monitor_serial (with_ticks w (before ++ [t])) port_name st /\
  fst (monitor_serial w port_name st) <> Running.
Proof.
  intros Hticks Hquiet. split.
  - unfold monitor_serial. apply try_except_ext.
    unfold open_serial. cbn [with_ticks serial_Serial reset_input_buffer ticks].
    rewrite Hticks.
    repeat (apply bind_ext; intros ? ?).
    now apply monitor_loop_cut.
  - destruct (monitor_serial_trace w port_name st)
      as (evs & r & ser' & -> & H).
    cbn [fst].
    destruct (serial_Serial w port_name) as [u|e].
    + destruct H as (rest & hevs & _ & _ & _ & _ & Hcases & _).
      destruct Hcases as [(_ & _ & _ & Hq & _) | [(-> & _) | (-> & _)]];
        try discriminate.
      rewrite Hticks, forallb_app in Hq. cbn [forallb] in Hq.
      rewrite Hquiet, andb_false_r in Hq. discriminate Hq.
    + destruct H as [_ H].
      destruct e; destruct (ser st) as [[|]|]; destruct H as (-> & _);
        discriminate.
Qed.

Lemma device_fault_ends_monitoring_witness :
  monitor_serial world_fault_then_data (lit "/dev/ttyACM0") initial =
  monitor_serial
    (with_ticks world_fault_then_data
       [mkTick (Raise (OtherError (lit "[Errno 5] Input/output error")))
               (Ok []) (Ok tt)])
    (lit "/dev/ttyACM0") initial.
Proof.
  apply (@device_fault_ends_monitoring world_fault_then_data
           (lit "/dev/ttyACM0") initial []
           [tick_noisy]
           (mkTick (Raise (OtherError (lit "[Errno 5] Input/output error")))
                   (Ok []) (Ok tt)));
    reflexivity.
Defined.
